(** * War estruturado: a shallow embedding of [war.c]

    The game keeps a heap-allocated array of [Territorio] records (the map),
    attacks one territory from another with two dice drawn from [rand()],
    and checks one of two missions against the map.

    The embedding keeps the program's shape:
    - [char] arrays are lists of characters of the declared capacity, read
      as C strings (the characters before the first NUL);
    - [int] is [Z] with the 32-bit wrap-around written out;
    - the functions that work through pointers run in a small state monad
      over [Mundo]: the map, the stream of [rand()] results and what was
      printed.  A pointer into the map is an index, and an access outside
      the allocated block, like a read past a constant table, has no
      defined result ([Indefinido]). *)

From Stdlib Require Import ZArith Ascii String.
From stdpp Require Import base tactics option list.

Local Open Scope Z_scope.

(** ** Constants of the program *)

Definition TOTAL_TERRITORIOS : nat := 5.
Definition TAM_NOME : nat := 50.
Definition TAM_COR : nat := 20.

(** ** [int] *)

Module CInt.

Definition INT_MIN : Z := - 2 ^ 31.
Definition INT_MAX : Z := 2 ^ 31 - 1.

(** The value an arithmetic result has once stored in a 32-bit [int]. *)
Definition wrap (z : Z) : Z := (z + 2 ^ 31) mod 2 ^ 32 - 2 ^ 31.

Definition in_range (z : Z) : Prop := INT_MIN <= z <= INT_MAX.

Definition add (a b : Z) : Z := wrap (a + b).
Definition sub (a b : Z) : Z := wrap (a - b).

(** C's [%] truncates towards zero. *)
Definition rem (a b : Z) : Z := wrap (Z.rem a b).

End CInt.

(** ** C strings *)

Module CStr.

Definition NUL : ascii := Ascii.zero.

Definition is_nul (c : ascii) : bool := Ascii.eqb c NUL.

(** Code of a character, as [unsigned char]. *)
Definition code (c : ascii) : Z := Z.of_nat (nat_of_ascii c).

(** The array a string literal denotes: its characters and the NUL. *)
Definition lit (s : string) : list ascii := list_ascii_of_string s ++ [NUL].

(** The string a [char] array holds: what precedes the first NUL. *)
Fixpoint c_str (b : list ascii) : list ascii :=
  match b with
  | [] => []
  | c :: b' => if is_nul c then [] else c :: c_str b'
  end.

(** The array holds a terminated string. *)
Definition terminated (b : list ascii) : bool := existsb is_nul b.

(** [strncpy(dst, src, n)]: the [n] characters written to [dst].  The
    characters of [src] are copied up to its NUL and the rest of the [n]
    positions is filled with NUL; no terminator is added when [src] has
    [n] characters or more.  The end of the source array reads as its
    terminator. *)
Fixpoint strncpy (src : list ascii) (n : nat) : list ascii :=
  match n with
  | O => []
  | S n' =>
      match src with
      | [] => NUL :: strncpy [] n'
      | c :: src' =>
          if is_nul c then NUL :: strncpy [] n' else c :: strncpy src' n'
      end
  end.

(** The two statements the program always pairs, on an array of [cap]
    characters:
<<
    strncpy(dst, src, cap - 1);
    dst[cap - 1] = '\0';
>>
    Together they overwrite the whole array. *)
Definition copiar (cap : nat) (src : list ascii) : list ascii :=
  strncpy src (cap - 1) ++ [NUL].

(** [strcmp]: the difference of the first characters that differ, as
    [unsigned char], and 0 when both strings end together. *)
Fixpoint strcmp (a b : list ascii) : Z :=
  match a, b with
  | [], [] => 0
  | [], y :: _ => code NUL - code y
  | x :: _, [] => code x - code NUL
  | x :: a', y :: b' =>
      if Ascii.eqb x y
      then (if is_nul x then 0 else strcmp a' b')
      else code x - code y
  end.

End CStr.

Import CStr.

(** ** The territory record
<<
    typedef struct {
        char nome[TAM_NOME];
        char corExercito[TAM_COR];
        int tropas;
    } Territorio;
>> *)

Record Territorio : Type := mkTerritorio {
  nome : list ascii;
  corExercito : list ascii;
  tropas : Z
}.

Definition set_nome (t : Territorio) (b : list ascii) : Territorio :=
  {| nome := b; corExercito := corExercito t; tropas := tropas t |}.

Definition set_corExercito (t : Territorio) (b : list ascii) : Territorio :=
  {| nome := nome t; corExercito := b; tropas := tropas t |}.

Definition set_tropas (t : Territorio) (n : Z) : Territorio :=
  {| nome := nome t; corExercito := corExercito t; tropas := n |}.

(** What the C type guarantees of a record the program built: arrays of the
    declared sizes holding terminated strings, and a 32-bit [tropas]. *)
Definition Territorio_ok (t : Territorio) : Prop :=
  length (nome t) = TAM_NOME /\
  length (corExercito t) = TAM_COR /\
  terminated (nome t) = true /\
  terminated (corExercito t) = true /\
  CInt.in_range (tropas t).

(** The owner of a territory: the string in [corExercito]. *)
Definition dono (t : Territorio) : list ascii := c_str (corExercito t).

(** ** What the program prints

    One constructor for each [printf] of the modelled functions, carrying
    the values its format prints. *)

Inductive Evento : Type :=
| AtacanteSemTropas (nome_atacante : list ascii)
| DefensorVazio (nome_defensor : list ascii)
| Ataca (nome_a : list ascii) (tropas_a : Z) (cor_a : list ascii)
        (nome_d : list ascii) (tropas_d : Z) (cor_d : list ascii)
| Rolagem (dadoAtaque dadoDefesa : Z)
| PerdeTropa (nome_defensor : list ascii) (agora : Z)
| Conquistado (nome_defensor cor_atacante : list ascii)
| TropaMovida (nome_a nome_d : list ascii)
| DefesaBemSucedida
| AtaqueCancelado
| LinhaEmBranco.

(** ** The state the functions work on *)

Record Mundo : Type := mkMundo {
  mapa : list Territorio;      (* the block [alocarMapa] returned *)
  rand_seq : nat -> nat;       (* the results of [rand()], in order *)
  rand_pos : nat;              (* how many were drawn *)
  saida : list Evento          (* what was printed, oldest first *)
}.

Definition com_mapa (w : Mundo) (m : list Territorio) : Mundo :=
  {| mapa := m; rand_seq := rand_seq w; rand_pos := rand_pos w;
     saida := saida w |}.

(** ** The monad *)

Inductive Res (A : Type) : Type :=
| Ret (a : A) (w : Mundo)
| Indefinido.

Arguments Ret {A} a w.
Arguments Indefinido {A}.

Definition M (A : Type) : Type := Mundo -> Res A.

Definition ret {A} (a : A) : M A := fun w => Ret a w.

Definition bind {A B} (m : M A) (k : A -> M B) : M B :=
  fun w => match m w with
           | Ret a w' => k a w'
           | Indefinido => Indefinido
           end.

Notation "x <- m ;; k" := (bind m (fun x => k))
  (at level 100, m at next level, right associativity).
Notation "m ;; k" := (bind m (fun _ => k))
  (at level 100, right associativity).

(** Reading and writing through a pointer into the map. *)

Definition ler (p : nat) : M Territorio :=
  fun w => match mapa w !! p with
           | Some t => Ret t w
           | None => Indefinido
           end.

Definition escrever (p : nat) (f : Territorio -> Territorio) : M unit :=
  fun w => match mapa w !! p with
           | Some t => Ret tt (com_mapa w (<[p := f t]> (mapa w)))
           | None => Indefinido
           end.

Definition ler_nome (p : nat) : M (list ascii) := t <- ler p ;; ret (nome t).
Definition ler_cor (p : nat) : M (list ascii) :=
  t <- ler p ;; ret (corExercito t).
Definition ler_tropas (p : nat) : M Z := t <- ler p ;; ret (tropas t).

Definition por_nome (p : nat) (b : list ascii) : M unit :=
  escrever p (fun t => set_nome t b).
Definition por_cor (p : nat) (b : list ascii) : M unit :=
  escrever p (fun t => set_corExercito t b).
Definition por_tropas (p : nat) (n : Z) : M unit :=
  escrever p (fun t => set_tropas t n).

(** [rand()]: the next result of the stream. *)
Definition rand : M Z :=
  fun w => Ret (Z.of_nat (rand_seq w (rand_pos w)))
               {| mapa := mapa w; rand_seq := rand_seq w;
                  rand_pos := S (rand_pos w); saida := saida w |}.

Definition printf (e : Evento) : M unit :=
  fun w => Ret tt {| mapa := mapa w; rand_seq := rand_seq w;
                     rand_pos := rand_pos w; saida := saida w ++ [e] |}.

(** Reading entry [i] of a constant table. *)
Definition consultar {A} (tab : list A) (i : nat) : M A :=
  fun w => match tab !! i with
           | Some x => Ret x w
           | None => Indefinido
           end.

(** [for (size_t i = i0; i < i0 + n; ++i) corpo(i);] *)
Fixpoint para (n : nat) (i : nat) (corpo : nat -> M unit) : M unit :=
  match n with
  | O => ret tt
  | S n' => corpo i ;; para n' (S i) corpo
  end.

(** ** Setup *)

(** A zeroed record, as [calloc] leaves it. *)
Definition Territorio_zerado : Territorio :=
  {| nome := repeat NUL TAM_NOME;
     corExercito := repeat NUL TAM_COR;
     tropas := 0 |}.

(** [alocarMapa]: the block [calloc] returns, or [None] for [NULL].  Whether
    the allocation succeeds is the environment's choice. *)
Definition alocarMapa (total : nat) (ha_memoria : bool)
  : option (list Territorio) :=
  if ha_memoria then Some (repeat Territorio_zerado total) else None.

Definition nomes : list (list ascii) :=
  [lit "Amazonas"; lit "Cerrado"; lit "Pantanal"; lit "Caatinga";
   lit "Mata Atlantica"].
Definition cores : list (list ascii) :=
  [lit "Verde"; lit "Azul"; lit "Vermelho"; lit "Amarelo"; lit "Roxo"].
Definition tropas_iniciais : list Z := [5; 4; 6; 3; 5].

(** [inicializarTerritorios]: [territorios] points to the first record of
    the block. *)
Definition inicializarTerritorios (territorios : nat) (total : nat) : M unit :=
  para total 0%nat (fun i =>
    n <- consultar nomes i ;;
    por_nome (territorios + i) (copiar TAM_NOME n) ;;
    c <- consultar cores i ;;
    por_cor (territorios + i) (copiar TAM_COR c) ;;
    t <- consultar tropas_iniciais i ;;
    por_tropas (territorios + i) t).

(** ** Combat *)

(** The conquest branch of [simularAtaque] (the body of
    [if (defensor->tropas <= 0)]). *)
Definition conquista (atacante defensor : nat) : M unit :=
  nd <- ler_nome defensor ;;
  ca <- ler_cor atacante ;;
  printf (Conquistado (c_str nd) (c_str ca)) ;;
  ca <- ler_cor atacante ;;
  por_cor defensor (copiar TAM_COR ca) ;;
  ta <- ler_tropas atacante ;;
  if ta >? 1 then
    ta <- ler_tropas atacante ;;
    por_tropas atacante (CInt.sub ta 1) ;;
    por_tropas defensor 1 ;;
    na <- ler_nome atacante ;;
    nd <- ler_nome defensor ;;
    printf (TropaMovida (c_str na) (c_str nd))
  else
    por_tropas defensor 1 ;;
    por_tropas atacante 0.

(** [simularAtaque]: [atacante] and [defensor] point into the map. *)
Definition simularAtaque (atacante defensor : nat) (corJogador : list ascii)
  : M unit :=
  ta <- ler_tropas atacante ;;
  if ta <=? 0 then
    na <- ler_nome atacante ;;
    printf (AtacanteSemTropas (c_str na))
  else
    td <- ler_tropas defensor ;;
    if td <=? 0 then
      nd <- ler_nome defensor ;;
      printf (DefensorVazio (c_str nd))
    else
      r1 <- rand ;;
      let dadoAtaque := CInt.add (CInt.rem r1 6) 1 in
      r2 <- rand ;;
      let dadoDefesa := CInt.add (CInt.rem r2 6) 1 in
      a <- ler atacante ;;
      d <- ler defensor ;;
      printf (Ataca (c_str (nome a)) (tropas a) (c_str (corExercito a))
                    (c_str (nome d)) (tropas d) (c_str (corExercito d))) ;;
      printf (Rolagem dadoAtaque dadoDefesa) ;;
      (if dadoAtaque >=? dadoDefesa then
         td <- ler_tropas defensor ;;
         por_tropas defensor (CInt.sub td 1) ;;
         d <- ler defensor ;;
         printf (PerdeTropa (c_str (nome d)) (tropas d)) ;;
         td <- ler_tropas defensor ;;
         if td <=? 0 then conquista atacante defensor else ret tt
       else
         printf DefesaBemSucedida) ;;
      printf LinhaEmBranco.

(** The end of one round of [faseDeAtaque], once both indices were read:
    the check of the indices and the call. *)
Definition atacar_escolhidos (territorios : nat) (total : nat) (atk def : Z)
  (corJogador : list ascii) : M unit :=
  let total_int := CInt.wrap (Z.of_nat total) in
  if (atk <? 1) || (atk >? total_int) || (def <? 1) || (def >? total_int)
     || (atk =? def)
  then printf AtaqueCancelado
  else simularAtaque (territorios + Z.to_nat (atk - 1))
                     (territorios + Z.to_nat (def - 1)) corJogador.

(** ** Missions *)

(** The loop of mission 0: 0 at the first territory of the target colour
    that still has troops, 1 when there is none. *)
Fixpoint procurar_exercito (n : nat) (territorios i : nat)
  (alvoMissao : list ascii) : M Z :=
  match n with
  | O => ret 1
  | S n' =>
      t <- ler (territorios + i) ;;
      if (strcmp (corExercito t) alvoMissao =? 0) && (tropas t >? 0)
      then ret 0
      else procurar_exercito n' territorios (S i) alvoMissao
  end.

(** The loop of mission 1: [contador] after the remaining [n] territories. *)
Fixpoint contar_do_jogador (n : nat) (territorios i : nat)
  (corJogador : list ascii) (contador : Z) : M Z :=
  match n with
  | O => ret contador
  | S n' =>
      t <- ler (territorios + i) ;;
      contar_do_jogador n' territorios (S i) corJogador
        (if strcmp (corExercito t) corJogador =? 0
         then CInt.add contador 1 else contador)
  end.

Definition verificarVitoria (territorios : nat) (total : nat) (idMissao : Z)
  (alvoMissao corJogador : list ascii) : M Z :=
  if idMissao =? 0 then
    procurar_exercito total territorios 0 alvoMissao
  else if idMissao =? 1 then
    contador <- contar_do_jogador total territorios 0 corJogador 0 ;;
    ret (if contador >=? 3 then 1 else 0)
  else ret 0.

(** ** The reference configuration of [main] *)

(** [const char corJogador[TAM_COR] = "Azul";] *)
Definition corJogador_main : list ascii :=
  list_ascii_of_string "Azul" ++ repeat NUL (TAM_COR - 4).

(** The world [main] starts from: nothing allocated, drawn or printed. *)
Definition Mundo_inicial (seq : nat -> nat) : Mundo :=
  {| mapa := []; rand_seq := seq; rand_pos := 0; saida := [] |}.

(** The setup of [main]: allocate the map and fill it; [None] is the
    [EXIT_FAILURE] of a failed allocation. *)
Definition preparar (total : nat) (ha_memoria : bool) (w : Mundo)
  : option (Res unit) :=
  match alocarMapa total ha_memoria with
  | None => None
  | Some bloco => Some (inicializarTerritorios 0 total (com_mapa w bloco))
  end.

(** ** Notions the properties are stated with *)

(** A die, [rand() % 6 + 1], from the result [r] of [rand()]. *)
Definition dado (r : Z) : Z := CInt.add (CInt.rem r 6) 1.

(** The dice the next attack rolls in world [w]. *)
Definition dadoAtaque_de (w : Mundo) : Z :=
  dado (Z.of_nat (rand_seq w (rand_pos w))).
Definition dadoDefesa_de (w : Mundo) : Z :=
  dado (Z.of_nat (rand_seq w (S (rand_pos w)))).

(** What an attack of [tA] on [tD] prints once the dice are rolled. *)
Definition anuncio (w : Mundo) (tA tD : Territorio) : list Evento :=
  [Ataca (c_str (nome tA)) (tropas tA) (c_str (corExercito tA))
         (c_str (nome tD)) (tropas tD) (c_str (corExercito tD));
   Rolagem (dadoAtaque_de w) (dadoDefesa_de w)].

(** A record as [inicializarTerritorios] writes it. *)
Definition territorio (n c : string) (t : Z) : Territorio :=
  {| nome := copiar TAM_NOME (lit n);
     corExercito := copiar TAM_COR (lit c);
     tropas := t |}.

(** A world with map [m] whose [rand()] gives [r1], [r2] and then zeros. *)
Definition mundo_de (m : list Territorio) (r1 r2 : nat) : Mundo :=
  {| mapa := m;
     rand_seq := fun k => match k with O => r1 | 1%nat => r2 | _ => O end;
     rand_pos := 0;
     saida := [] |}.

#[local] Instance ascii_eq_dec : EqDecision ascii := Ascii.ascii_dec.

(** Territory [t] holds a living army of colour [cor]. *)
Definition exercito_vivo (cor : list ascii) (t : Territorio) : Prop :=
  dono t = c_str cor /\ 0 < tropas t.

(** How many territories of [m] the colour [cor] owns. *)
Definition territorios_de (cor : list ascii) (m : list Territorio) : nat :=
  length (filter (fun t => dono t = c_str cor) m).

(** The [n] records of map [m] a loop over [territorios] visits from index
    [i] on. *)
Definition restantes (m : list Territorio) (territorios n i : nat)
  : list Territorio :=
  take n (drop (territorios + i) m).

(** The seed tables, row by row. *)
Definition mapa_referencia : list Territorio :=
  [territorio "Amazonas" "Verde" 5;
   territorio "Cerrado" "Azul" 4;
   territorio "Pantanal" "Vermelho" 6;
   territorio "Caatinga" "Amarelo" 3;
   territorio "Mata Atlantica" "Roxo" 5].

(** What the map shows: name, owner and troops of each territory. *)
Definition legenda (m : list Territorio) : list (string * string * Z) :=
  map (fun t => (string_of_list_ascii (c_str (nome t)),
                 string_of_list_ascii (dono t),
                 tropas t)) m.

(** The setup failed: [main] left with [EXIT_FAILURE], or returned an empty
    map. *)
Definition falhou (r : option (Res unit)) : Prop :=
  r = None \/ exists w', r = Some (Ret tt w') /\ mapa w' = [].

(** ** The rest of the program *)

(** An operation without a defined result. *)
Definition indefinido {A} : M A := fun _ => Indefinido.

(** Writing [escrito] at the start of the array [buf]: the array
    afterwards, or nothing when [escrito] does not fit. *)
Definition gravar (buf escrito : list ascii) : M (list ascii) :=
  if (length escrito <=? length buf)%nat
  then ret (escrito ++ drop (length escrito) buf)
  else indefinido.

(** The pair
<<
      strncpy(dst, src, size - 1);
      dst[size - 1] = '\0';
>>
    on an array [dst] whose size the caller passed as [size]: with
    [size = 0] the unsigned [size - 1] is the largest [size_t]. *)
Definition gravar_str (dst : list ascii) (size : nat) (src : list ascii)
  : M (list ascii) :=
  match size with
  | O => indefinido
  | S _ => gravar dst (copiar size src)
  end.

(** [snprintf(buf, size, ...)] of the formatted text [texto]: at most
    [size - 1] characters and the terminator; nothing at all for
    [size = 0]. *)
Definition snprintf (buf : list ascii) (size : nat) (texto : list ascii)
  : M (list ascii) :=
  match size with
  | O => ret buf
  | S k => gravar buf (take k texto ++ [NUL])
  end.

(** *** [sortearMissao] *)

Definition MISS_DESC_TAM : nat := 128.

Definition possiveis : list (list ascii) :=
  [lit "Verde"; lit "Azul"; lit "Vermelho"; lit "Amarelo"; lit "Roxo"].

(** [for (int tent = 0; tent < 10 && escolhida == NULL; ++tent)], with [n]
    rounds left. *)
Fixpoint tentar_sorteio (n : nat) (corJogador : list ascii)
  (escolhida : option (list ascii)) : M (option (list ascii)) :=
  match n, escolhida with
  | S n', None =>
      r <- rand ;;
      c <- consultar possiveis (Z.to_nat (r mod 5)) ;;
      tentar_sorteio n' corJogador
        (if negb (strcmp c corJogador =? 0) then Some c else None)
  | _, _ => ret escolhida
  end.

(** The fallback loop: the first colour of the table that is not the
    player's. *)
Fixpoint primeira_diferente (tab : list (list ascii))
  (corJogador : list ascii) : option (list ascii) :=
  match tab with
  | [] => None
  | c :: tab' =>
      if negb (strcmp c corJogador =? 0) then Some c
      else primeira_diferente tab' corJogador
  end.

(** [sortearMissao]: the mission id and the arrays [descricao] and
    [alvoMissao] as the call leaves them. *)
Definition sortearMissao (descricao : list ascii) (descSize : nat)
  (alvoMissao : list ascii) (alvoSize : nat) (corJogador : list ascii)
  : M (Z * list ascii * list ascii) :=
  r <- rand ;;
  let tipo := CInt.rem r 2 in
  if tipo =? 0 then
    escolhida <- tentar_sorteio 10 corJogador None ;;
    let escolhida :=
      match escolhida with
      | None => primeira_diferente possiveis corJogador
      | Some c => Some c
      end in
    match escolhida with
    | None => indefinido
    | Some c =>
        alvo <- gravar_str alvoMissao alvoSize c ;;
        desc <- snprintf descricao descSize
                  (list_ascii_of_string "Destruir o exército " ++ c_str alvo) ;;
        ret (tipo, desc, alvo)
    end
  else
    alvo <- gravar_str alvoMissao alvoSize (lit "3Territorios") ;;
    desc <- snprintf descricao descSize
              (list_ascii_of_string "Conquistar 3 territórios") ;;
    ret (tipo, desc, alvo).

(** *** [indiceCorParaANSI] *)

Definition indiceCorParaANSI (cor : list ascii) : Z :=
  if strcmp cor (lit "Verde") =? 0 then 0
  else if strcmp cor (lit "Azul") =? 0 then 1
  else if strcmp cor (lit "Vermelho") =? 0 then 2
  else if strcmp cor (lit "Amarelo") =? 0 then 3
  else if strcmp cor (lit "Roxo") =? 0 then 4
  else -1.

(** [liberarMemoria]: the block is gone. *)
Definition liberarMemoria (territorios : nat) : M unit :=
  fun w => Ret tt (com_mapa w []).

(** ** The session: keyboard and screen

    The functions above print only what [simularAtaque] prints.  The rest
    of the program also reads the keyboard and prints menus and tables; it
    runs on a [Sessao]: the world, the characters still to be read from
    [stdin], and the screen, to which what the combat prints is moved. *)

Inductive Tela : Type :=
| DoAtaque (e : Evento)
(* exibirMenuPrincipal *)
| MenuTitulo
| MenuAtacar
| MenuVerificar
| MenuSair
| MenuEscolha
(* exibirMapa *)
| MapaTitulo
| MapaCabecalho
| MapaRegua
| MapaLinhaColorida (idx : nat) (nome_t ansi cor reset : list ascii)
                    (tropas_t : Z)
| MapaLinha (idx : nat) (nome_t cor : list ascii) (tropas_t : Z)
| LinhaVazia
(* exibirMissao *)
| MissaoTitulo
| ObjetivoDestruir (alvo : list ascii)
| ObjetivoConquistar
| MissaoDesconhecida
(* faseDeAtaque *)
| PerguntaAtaques
| EntradaInvalidaMenu
| AnuncioAtaque (i n : Z)
| PerguntaAtacante (total : nat)
| PerguntaDefensor (total : nat)
| EntradaInvalidaAtaque
(* main *)
| ErroAlocacao
| Parabens (descricao : list ascii)
| MissaoNaoCumprida (descricao : list ascii)
| Saindo
| OpcaoInvalida
| PressioneEnter.

Record Sessao : Type := mkSessao {
  mundo : Mundo;
  stdin : list ascii;
  tela : list Tela
}.

Inductive ResJ (A : Type) : Type :=
| RetJ (a : A) (s : Sessao)
| IndefinidoJ.

Arguments RetJ {A} a s.
Arguments IndefinidoJ {A}.

Definition J (A : Type) : Type := Sessao -> ResJ A.

Definition retJ {A} (a : A) : J A := fun s => RetJ a s.

Definition bindJ {A B} (m : J A) (k : A -> J B) : J B :=
  fun s => match m s with
           | RetJ a s' => k a s'
           | IndefinidoJ => IndefinidoJ
           end.

Notation "x <~ m ;; k" := (bindJ m (fun x => k))
  (at level 100, m at next level, right associativity).
Notation "m ~;; k" := (bindJ m (fun _ => k))
  (at level 100, right associativity).

(** The world with nothing printed. *)
Definition limpo (w : Mundo) : Mundo :=
  {| mapa := mapa w; rand_seq := rand_seq w; rand_pos := rand_pos w;
     saida := [] |}.

(** A function of the first part run in the session: what it prints goes
    to the screen. *)
Definition subir {A} (m : M A) : J A :=
  fun s => match m (limpo (mundo s)) with
           | Ret a w' =>
               RetJ a {| mundo := limpo w';
                         stdin := stdin s;
                         tela := tela s ++ (DoAtaque <$> saida w') |}
           | Indefinido => IndefinidoJ
           end.

Definition mostrar (t : Tela) : J unit :=
  fun s => RetJ tt {| mundo := mundo s; stdin := stdin s;
                      tela := tela s ++ [t] |}.

Definition consultarJ {A} (tab : list A) (i : nat) : J A :=
  fun s => match tab !! i with
           | Some x => RetJ x s
           | None => IndefinidoJ
           end.

Fixpoint paraJ (n : nat) (i : nat) (corpo : nat -> J unit) : J unit :=
  match n with
  | O => retJ tt
  | S n' => corpo i ~;; paraJ n' (S i) corpo
  end.

(** *** The keyboard *)

Definition EOF : Z := -1.

(** [getchar()]: the next character, or [EOF] at the end of the input. *)
Definition getchar : J Z :=
  fun s => match stdin s with
           | [] => RetJ EOF s
           | c :: resto =>
               RetJ (code c) {| mundo := mundo s; stdin := resto;
                                tela := tela s |}
           end.

(** What [while ((c = getchar()) != '\n' && c != EOF)] leaves of the
    input: what follows the first newline. *)
Fixpoint descartar_linha (entrada : list ascii) : list ascii :=
  match entrada with
  | [] => []
  | c :: resto => if code c =? 10 then resto else descartar_linha resto
  end.

Definition limparBufferEntrada : J unit :=
  fun s => RetJ tt {| mundo := mundo s;
                      stdin := descartar_linha (stdin s);
                      tela := tela s |}.

(** [isspace]: space, and the characters from tab to carriage return. *)
Definition is_space (c : ascii) : bool :=
  (code c =? 32) || ((9 <=? code c) && (code c <=? 13)).

Definition digito (c : ascii) : option Z :=
  if (48 <=? code c) && (code c <=? 57) then Some (code c - 48) else None.

Fixpoint pular_brancos (entrada : list ascii) : list ascii :=
  match entrada with
  | [] => []
  | c :: resto => if is_space c then pular_brancos resto else entrada
  end.

(** The digits at the head of the input: their value after [acc], how many
    they are, and the input after them. *)
Fixpoint ler_digitos (entrada : list ascii) (acc : Z) (n : nat)
  : Z * nat * list ascii :=
  match entrada with
  | [] => (acc, n, [])
  | c :: resto =>
      match digito c with
      | Some d => ler_digitos resto (10 * acc + d) (S n)
      | None => (acc, n, entrada)
      end
  end.

(** The directive [%d] on the input: white space, an optional sign, and
    decimal digits.  The result is the converted number, if there was one,
    and the input left; for a number that does not fit an [int] the
    behaviour is undefined ([None]). *)
Definition ler_int (entrada : list ascii)
  : option (option Z * list ascii) :=
  let e1 := pular_brancos entrada in
  let '(sinal, e2) :=
    match e1 with
    | c :: resto =>
        if code c =? 45 then (-1, resto)
        else if code c =? 43 then (1, resto)
        else (1, e1)
    | [] => (1, [])
    end in
  let '(v, n, e3) := ler_digitos e2 0 0 in
  match n with
  | O => Some (None, e3)
  | S _ =>
      if (CInt.INT_MIN <=? sinal * v) && (sinal * v <=? CInt.INT_MAX)
      then Some (Some (sinal * v), e3)
      else None
  end.

(** [scanf("%d", &x)]: [Some x] when it returns 1, [None] when it returns
    0 or [EOF]. *)
Definition scanf_d : J (option Z) :=
  fun s => match ler_int (stdin s) with
           | Some (r, resto) =>
               RetJ r {| mundo := mundo s; stdin := resto; tela := tela s |}
           | None => IndefinidoJ
           end.

(** *** The screens *)

Definition ESC : ascii := ascii_of_nat 27.

Definition coresANSI : list (list ascii) :=
  [ESC :: lit "[32m"; ESC :: lit "[34m"; ESC :: lit "[31m";
   ESC :: lit "[33m"; ESC :: lit "[35m"].
Definition resetANSI : list ascii := ESC :: lit "[0m".

Definition exibirMenuPrincipal : J unit :=
  mostrar MenuTitulo ~;;
  mostrar MenuAtacar ~;;
  mostrar MenuVerificar ~;;
  mostrar MenuSair ~;;
  mostrar MenuEscolha.

Definition exibirMapa (territorios : nat) (total : nat) : J unit :=
  mostrar MapaTitulo ~;;
  mostrar MapaCabecalho ~;;
  mostrar MapaRegua ~;;
  paraJ total 0%nat (fun i =>
    t <~ subir (ler (territorios + i)) ;;
    let idxCor := indiceCorParaANSI (corExercito t) in
    if idxCor >=? 0 then
      ansi <~ consultarJ coresANSI (Z.to_nat idxCor) ;;
      mostrar (MapaLinhaColorida (i + 1) (c_str (nome t)) (c_str ansi)
                 (c_str (corExercito t)) (c_str resetANSI) (tropas t))
    else
      mostrar (MapaLinha (i + 1) (c_str (nome t)) (c_str (corExercito t))
                 (tropas t))) ~;;
  mostrar LinhaVazia.

Definition exibirMissao (idMissao : Z) (alvoMissao : list ascii) : J unit :=
  mostrar MissaoTitulo ~;;
  (if idMissao =? 0 then mostrar (ObjetivoDestruir (c_str alvoMissao))
   else if idMissao =? 1 then mostrar ObjetivoConquistar
   else mostrar MissaoDesconhecida) ~;;
  mostrar LinhaVazia.

(** *** [faseDeAtaque] *)

(** One round of the loop of [faseDeAtaque]. *)
Definition rodada (territorios total : nat) (corJogador : list ascii)
  (i nAtaques : Z) : J unit :=
  mostrar (AnuncioAtaque (CInt.add i 1) nAtaques) ~;;
  mostrar (PerguntaAtacante total) ~;;
  r <~ scanf_d ;;
  match r with
  | None => limparBufferEntrada ~;; mostrar EntradaInvalidaAtaque
  | Some atk =>
      limparBufferEntrada ~;;
      mostrar (PerguntaDefensor total) ~;;
      r <~ scanf_d ;;
      match r with
      | None => limparBufferEntrada ~;; mostrar EntradaInvalidaAtaque
      | Some def =>
          limparBufferEntrada ~;;
          subir (atacar_escolhidos territorios total atk def corJogador)
      end
  end.

(** [for (int i = i0; i < nAtaques; ++i)], with [n] rounds to go. *)
Fixpoint rodadas (n : nat) (territorios total : nat)
  (corJogador : list ascii) (i nAtaques : Z) : J unit :=
  match n with
  | O => retJ tt
  | S n' =>
      rodada territorios total corJogador i nAtaques ~;;
      rodadas n' territorios total corJogador (CInt.add i 1) nAtaques
  end.

Definition faseDeAtaque (territorios total : nat) (corJogador : list ascii)
  : J unit :=
  mostrar PerguntaAtaques ~;;
  r <~ scanf_d ;;
  match r with
  | None => limparBufferEntrada ~;; mostrar EntradaInvalidaMenu
  | Some nAtaques =>
      limparBufferEntrada ~;;
      rodadas (Z.to_nat nAtaques) territorios total corJogador 0 nAtaques
  end.

(** *** [main] *)

Definition EXIT_SUCCESS : Z := 0.
Definition EXIT_FAILURE : Z := 1.

(** One turn of the loop of [main]: the values of [opcao] and [venceu]
    when the turn ends. *)
Definition turno (idMissao : Z) (alvoMissao descricaoMissao : list ascii)
  (corJogador : list ascii) (venceu : Z) : J (Z * Z) :=
  exibirMapa 0 TOTAL_TERRITORIOS ~;;
  exibirMissao idMissao alvoMissao ~;;
  exibirMenuPrincipal ~;;
  r <~ scanf_d ;;
  opcao <~ match r with
           | Some opcao => retJ opcao
           | None => limparBufferEntrada ~;; retJ (-1)
           end ;;
  limparBufferEntrada ~;;
  venceu <~ (if opcao =? 1 then
               faseDeAtaque 0 TOTAL_TERRITORIOS corJogador ~;; retJ venceu
             else if opcao =? 2 then
               v <~ subir (verificarVitoria 0 TOTAL_TERRITORIOS idMissao
                             alvoMissao corJogador) ;;
               if negb (v =? 0) then
                 mostrar (Parabens (c_str descricaoMissao)) ~;; retJ 1
               else
                 mostrar (MissaoNaoCumprida (c_str descricaoMissao)) ~;;
                 retJ venceu
             else if opcao =? 0 then
               mostrar Saindo ~;; retJ venceu
             else
               mostrar OpcaoInvalida ~;; retJ venceu) ;;
  (if (venceu =? 0) && negb (opcao =? 0) then
     mostrar PressioneEnter ~;; _ <~ getchar ;; retJ tt
   else retJ tt) ~;;
  retJ (opcao, venceu).

(** The [do ... while (opcao != 0 && !venceu)] of [main], for at most
    [turnos] turns: the final [venceu], or [None] when the loop is still
    running after them. *)
Fixpoint laco (turnos : nat) (idMissao : Z)
  (alvoMissao descricaoMissao corJogador : list ascii) (venceu : Z)
  : J (option Z) :=
  match turnos with
  | O => retJ None
  | S turnos' =>
      ov <~ turno idMissao alvoMissao descricaoMissao corJogador venceu ;;
      let '(opcao, venceu) := ov in
      if negb (opcao =? 0) && (venceu =? 0)
      then laco turnos' idMissao alvoMissao descricaoMissao corJogador venceu
      else retJ (Some venceu)
  end.

(** [main]: its exit status, or [None] when the game is still running
    after [turnos] turns. *)
Definition main (turnos : nat) (ha_memoria : bool) : J (option Z) :=
  fun s =>
    match preparar TOTAL_TERRITORIOS ha_memoria (limpo (mundo s)) with
    | None => (mostrar ErroAlocacao ~;; retJ (Some EXIT_FAILURE)) s
    | Some Indefinido => IndefinidoJ
    | Some (Ret _ w) =>
        (ida <~ subir (sortearMissao (repeat NUL MISS_DESC_TAM) MISS_DESC_TAM
                         (repeat NUL TAM_COR) TAM_COR corJogador_main) ;;
         let '(idMissao, descricaoMissao, alvoMissao) := ida in
         fim <~ laco turnos idMissao alvoMissao descricaoMissao
                  corJogador_main 0 ;;
         match fim with
         | None => retJ None
         | Some _ => subir (liberarMemoria 0) ~;; retJ (Some EXIT_SUCCESS)
         end)
          {| mundo := w; stdin := stdin s; tela := tela s |}
    end.

(** The session [main] starts in. *)
Definition Sessao_inicial (seq : nat -> nat) (entrada : list ascii)
  : Sessao :=
  {| mundo := Mundo_inicial seq; stdin := entrada; tela := [] |}.

(** ** Notions the further properties are stated with *)

(** [m] run from [w] returns, with a result and a world that satisfy [Q]. *)
Definition wp {A} (m : M A) (w : Mundo) (Q : A -> Mundo -> Prop) : Prop :=
  match m w with
  | Ret a w' => Q a w'
  | Indefinido => False
  end.

(** What one attack can make of the attacker [tA] and the defender [tD]. *)
Inductive desfecho (tA tD : Territorio) : Territorio -> Territorio -> Prop :=
| desfecho_nada :
    desfecho tA tD tA tD
| desfecho_perda :
    0 < tropas tA -> 1 < tropas tD ->
    desfecho tA tD tA (set_tropas tD (tropas tD - 1))
| desfecho_conquista :
    0 < tropas tA -> tropas tD = 1 ->
    desfecho tA tD
      (set_tropas tA (Z.max (tropas tA - 1) 0))
      {| nome := nome tD;
         corExercito := copiar TAM_COR (corExercito tA);
         tropas := 1 |}.

(** All the troops on the map. *)
Definition soma_tropas (m : list Territorio) : Z :=
  foldr (fun t s => tropas t + s) 0 m.

(** Every record of the map is well formed. *)
Definition mapa_ok (m : list Territorio) : Prop := Forall Territorio_ok m.

(** No record of the map has a negative number of troops. *)
Definition sem_negativos (m : list Territorio) : Prop :=
  Forall (fun t => 0 <= tropas t) m.

(** Map [m'] comes after map [m] in a game: the same territories under the
    same names, no more troops in all, no negative count where there was
    none, no colour that was not there, and every territory that had no
    troops exactly as it was. *)
Definition sucede (m m' : list Territorio) : Prop :=
  length m' = length m /\
  nome <$> m' = nome <$> m /\
  soma_tropas m' <= soma_tropas m /\
  (sem_negativos m -> sem_negativos m') /\
  (forall i t', m' !! i = Some t' ->
                exists j t, m !! j = Some t /\ dono t' = dono t) /\
  (forall i t, m !! i = Some t -> tropas t <= 0 -> m' !! i = Some t).

(** World [w] after [n] more results of [rand()] were drawn. *)
Definition apos_sorteios (n : nat) (w : Mundo) : Mundo :=
  {| mapa := mapa w; rand_seq := rand_seq w;
     rand_pos := (n + rand_pos w)%nat; saida := saida w |}.

(** The text [sortearMissao] formats for mission [tipo] and the target
    array [alvo]. *)
Definition texto_missao (tipo : Z) (alvo : list ascii) : list ascii :=
  if tipo =? 0
  then list_ascii_of_string "Destruir o exército " ++ c_str alvo
  else list_ascii_of_string "Conquistar 3 territórios".

(** Whenever [m] run from [s] returns, its result and session satisfy
    [Q]. *)
Definition wpJ {A} (m : J A) (s : Sessao) (Q : A -> Sessao -> Prop) : Prop :=
  match m s with
  | RetJ a s' => Q a s'
  | IndefinidoJ => True
  end.

(** Session [s'] follows session [s] in a game: its map succeeds the map
    of [s] and is well formed, and the stream of [rand()] is the same, no
    further back. *)
Definition segue (s s' : Sessao) : Prop :=
  sucede (mapa (mundo s)) (mapa (mundo s')) /\
  mapa_ok (mapa (mundo s')) /\
  rand_seq (mundo s') = rand_seq (mundo s) /\
  (rand_pos (mundo s) <= rand_pos (mundo s'))%nat.

(** The map of the session is well formed and has [n] records or more. *)
Definition em_ordem (n : nat) (s : Sessao) : Prop :=
  mapa_ok (mapa (mundo s)) /\ (n <= length (mapa (mundo s)))%nat.

(** From a session in order, whenever [m] returns the session follows the
    one it started in. *)
Definition conserva {A} (n : nat) (m : J A) : Prop :=
  forall s, em_ordem n s -> wpJ m s (fun _ s' => segue s s').

(** The two sessions differ at most in the screen. *)
Definition mesma_situacao (s s' : Sessao) : Prop :=
  limpo (mundo s') = limpo (mundo s) /\ stdin s' = stdin s.

(** On the map of session [s] the mission is fulfilled: [verificarVitoria]
    answers 1. *)
Definition missao_cumprida (idMissao : Z) (alvoMissao corJogador : list ascii)
  (s : Sessao) : Prop :=
  verificarVitoria 0 TOTAL_TERRITORIOS idMissao alvoMissao corJogador (mundo s)
  = Ret 1 (mundo s).

(** The keyboard input made of the given lines. *)
Fixpoint linhas (l : list string) : list ascii :=
  match l with
  | [] => []
  | x :: l' => list_ascii_of_string x ++ ascii_of_nat 10 :: linhas l'
  end.

(** A session on map [m] with the given lines to be typed and [rand()]
    giving [r1], [r2] and then zeros. *)
Definition sessao_de (m : list Territorio) (r1 r2 : nat) (l : list string)
  : Sessao :=
  {| mundo := mundo_de m r1 r2; stdin := linhas l; tela := [] |}.

(** The session a computation ends in, or [s] itself when it has no
    defined result. *)
Definition sessao_final {A} (m : J A) (s : Sessao) : Sessao :=
  match m s with
  | RetJ _ s' => s'
  | IndefinidoJ => s
  end.

(** A map on which the colour Azul owns three territories. *)
Definition mapa_tres_azuis : list Territorio :=
  [territorio "Amazonas" "Azul" 1;
   territorio "Cerrado" "Azul" 4;
   territorio "Pantanal" "Vermelho" 6;
   territorio "Caatinga" "Azul" 1;
   territorio "Mata Atlantica" "Roxo" 5].

(** * Properties *)

(** ** Arithmetic of [int] *)

Lemma wrap_in_range (z : Z) : CInt.in_range z -> CInt.wrap z = z.
Proof.
  unfold CInt.in_range, CInt.INT_MIN, CInt.INT_MAX, CInt.wrap. intros H.
  rewrite Z.mod_small; lia.
Qed.

Lemma sub_1_positive (z : Z) :
  CInt.in_range z -> 0 < z -> CInt.sub z 1 = z - 1.
Proof.
  intros H Hpos. unfold CInt.sub. apply wrap_in_range.
  unfold CInt.in_range, CInt.INT_MIN, CInt.INT_MAX in *. lia.
Qed.

(** A die is between 1 and 6 whatever [rand()] gave. *)
Lemma dado_range (n : nat) : 1 <= dado (Z.of_nat n) <= 6.
Proof.
  unfold dado, CInt.add, CInt.rem.
  assert (H : 0 <= Z.rem (Z.of_nat n) 6 < 6).
  { apply Z.rem_bound_pos; lia. }
  rewrite (wrap_in_range (Z.rem _ _)).
  - rewrite wrap_in_range; [lia |].
    unfold CInt.in_range, CInt.INT_MIN, CInt.INT_MAX. lia.
  - unfold CInt.in_range, CInt.INT_MIN, CInt.INT_MAX. lia.
Qed.

(** ** C strings *)

Section CStrings.

Implicit Types (a b src : list ascii) (c : ascii).

Lemma is_nul_true c : is_nul c = true <-> c = NUL.
Proof. unfold is_nul. apply Ascii.eqb_eq. Qed.

Lemma code_inj x y : code x = code y -> x = y.
Proof.
  unfold code. intros H. apply Nat2Z.inj in H.
  rewrite <- (ascii_nat_embedding x), <- (ascii_nat_embedding y).
  now f_equal.
Qed.

Lemma c_str_nil_pad n : c_str (strncpy [] n ++ [NUL]) = [].
Proof. destruct n; reflexivity. Qed.

(** [strcmp] is 0 exactly on equal strings. *)
Lemma strcmp_0 a b : strcmp a b = 0 <-> c_str a = c_str b.
Proof.
  revert b. induction a as [|x a IH]; intros [|y b]; simpl.
  - tauto.
  - destruct (is_nul y) eqn:Hy.
    + apply is_nul_true in Hy. subst y. split; reflexivity.
    + split; [|discriminate]. intros H.
      assert (E : NUL = y) by (apply code_inj; lia).
      subst y. discriminate.
  - destruct (is_nul x) eqn:Hx.
    + apply is_nul_true in Hx. subst x. split; reflexivity.
    + split; [|discriminate]. intros H.
      assert (E : x = NUL) by (apply code_inj; lia).
      subst x. discriminate.
  - destruct (Ascii.eqb x y) eqn:Hxy.
    + apply Ascii.eqb_eq in Hxy. subst y.
      destruct (is_nul x); [tauto |].
      rewrite IH. split; [congruence |]. now intros [= ->].
    + apply Ascii.eqb_neq in Hxy.
      split.
      * intros H. exfalso. apply Hxy, code_inj. lia.
      * destruct (is_nul x) eqn:Hx, (is_nul y) eqn:Hy; intros H;
          try discriminate.
        -- apply is_nul_true in Hx, Hy. congruence.
        -- congruence.
Qed.

Lemma c_str_length_terminated b :
  terminated b = true -> (length (c_str b) < length b)%nat.
Proof.
  unfold terminated. induction b as [|c b IH]; simpl; [discriminate |].
  destruct (is_nul c); simpl; [lia |]. intros H. apply IH in H. lia.
Qed.

(** Copying at least as many characters as the string has keeps it. *)
Lemma c_str_strncpy src n :
  (length (c_str src) <= n)%nat ->
  c_str (strncpy src n ++ [NUL]) = c_str src.
Proof.
  revert src. induction n as [|n IH]; intros [|c src]; simpl.
  - reflexivity.
  - destruct (is_nul c); simpl; [reflexivity | lia].
  - intros _. reflexivity.
  - destruct (is_nul c) eqn:Hc; simpl; [reflexivity |].
    intros H. rewrite Hc. f_equal. apply IH. lia.
Qed.

Lemma c_str_copiar cap src :
  terminated src = true -> (length src <= cap)%nat ->
  c_str (copiar cap src) = c_str src.
Proof.
  intros Ht Hl. apply c_str_strncpy.
  apply c_str_length_terminated in Ht. lia.
Qed.

Lemma length_strncpy src n : length (strncpy src n) = n.
Proof.
  revert src. induction n as [|n IH]; intros [|c src]; simpl; auto.
  destruct (is_nul c); simpl; auto.
Qed.

Lemma length_copiar cap src : (0 < cap)%nat -> length (copiar cap src) = cap.
Proof.
  intros H. unfold copiar. rewrite length_app, length_strncpy. simpl. lia.
Qed.

Lemma terminated_copiar cap src : terminated (copiar cap src) = true.
Proof.
  unfold terminated, copiar. rewrite existsb_app. simpl.
  apply orb_true_r.
Qed.

End CStrings.

(** ** Running the monad *)

Section Execucao.

Context {A B : Type}.
Implicit Types (w : Mundo) (p : nat) (t : Territorio).

Lemma bind_Ret (m : M A) (k : A -> M B) w a w' :
  m w = Ret a w' -> bind m k w = k a w'.
Proof. unfold bind. now intros ->. Qed.

Lemma bind_Indefinido (m : M A) (k : A -> M B) w :
  m w = Indefinido -> bind m k w = Indefinido.
Proof. unfold bind. now intros ->. Qed.

Lemma bind_inv (m : M A) (k : A -> M B) w b w'' :
  bind m k w = Ret b w'' ->
  exists a w', m w = Ret a w' /\ k a w' = Ret b w''.
Proof.
  unfold bind. destruct (m w) as [a w'|]; [|discriminate]. eauto.
Qed.

End Execucao.

Lemma ler_Some w p t : mapa w !! p = Some t -> ler p w = Ret t w.
Proof. unfold ler. now intros ->. Qed.

Lemma escrever_Some w p t f :
  mapa w !! p = Some t ->
  escrever p f w = Ret tt (com_mapa w (<[p := f t]> (mapa w))).
Proof. unfold escrever. now intros ->. Qed.

(** Lookups in a map the program has written to. *)
Ltac dentro_do_mapa :=
  rewrite ?length_insert; eapply lookup_lt_Some; eassumption.

Ltac acessar :=
  first
    [ rewrite list_lookup_insert_ne by congruence
    | rewrite list_lookup_insert_eq by dentro_do_mapa
    | match goal with
      | H : mapa ?w !! ?p = Some _ |- context [mapa ?w !! ?p] => rewrite H
      end ].

(** Symbolic execution: unfold the monad and resolve each access of memory
    from the lookups at hand. *)
Ltac executar :=
  unfold ler_tropas, ler_nome, ler_cor, por_tropas, por_nome, por_cor,
    ler, escrever, rand, printf, ret, bind, com_mapa;
  simpl; repeat (acessar; simpl).

(** Two maps written at [a] and [d] are equal when they agree there. *)
Ltac mesmo_mapa a d :=
  apply list_eq; intros ?i;
  destruct (decide (i = a)) as [->|];
    [| destruct (decide (i = d)) as [->|]];
  repeat acessar; reflexivity.

(** ** What an attack does *)

(** The conquest branch: the defender takes the attacker's colour and one
    troop, the attacker keeps one troop less, or none. *)
Lemma conquista_exec w a d tA tD :
  a <> d -> mapa w !! a = Some tA -> mapa w !! d = Some tD ->
  CInt.in_range (tropas tA) ->
  conquista a d w =
  Ret tt
    {| mapa :=
         <[a := set_tropas tA (Z.max (tropas tA - 1) 0)]>
           (<[d := {| nome := nome tD;
                      corExercito := copiar TAM_COR (corExercito tA);
                      tropas := 1 |}]> (mapa w));
       rand_seq := rand_seq w;
       rand_pos := rand_pos w;
       saida :=
         saida w
         ++ Conquistado (c_str (nome tD)) (dono tA)
            :: (if tropas tA >? 1
                then [TropaMovida (c_str (nome tA)) (c_str (nome tD))]
                else []) |}.
Proof.
  intros Hne Ha Hd Hra. unfold conquista. executar.
  destruct (Z.gtb_spec (tropas tA) 1) as [Hgt|Hle]; executar;
    rewrite <- ?app_assoc; simpl.
  - rewrite sub_1_positive by (assumption || lia).
    rewrite Z.max_l by lia.
    do 2 f_equal. mesmo_mapa a d.
  - rewrite Z.max_r by lia.
    do 2 f_equal. mesmo_mapa a d.
Qed.

(** The first check: an attacker without troops. *)
Lemma simularAtaque_atacante_vazio w a d cj tA :
  mapa w !! a = Some tA -> tropas tA <= 0 ->
  simularAtaque a d cj w =
  Ret tt {| mapa := mapa w; rand_seq := rand_seq w; rand_pos := rand_pos w;
            saida := saida w ++ [AtacanteSemTropas (c_str (nome tA))] |}.
Proof.
  intros Ha Hta. unfold simularAtaque. executar.
  destruct (Z.leb_spec (tropas tA) 0); [|lia]. executar. reflexivity.
Qed.

(** The second check: a defender without troops. *)
Lemma simularAtaque_defensor_vazio w a d cj tA tD :
  mapa w !! a = Some tA -> mapa w !! d = Some tD ->
  0 < tropas tA -> tropas tD <= 0 ->
  simularAtaque a d cj w =
  Ret tt {| mapa := mapa w; rand_seq := rand_seq w; rand_pos := rand_pos w;
            saida := saida w ++ [DefensorVazio (c_str (nome tD))] |}.
Proof.
  intros Ha Hd Hta Htd. unfold simularAtaque. executar.
  destruct (Z.leb_spec (tropas tA) 0); [lia|]. executar.
  destruct (Z.leb_spec (tropas tD) 0); [|lia]. executar. reflexivity.
Qed.

Section Ataque.

Variables (w : Mundo) (a d : nat) (cj : list ascii) (tA tD : Territorio).
Hypothesis em_a : mapa w !! a = Some tA.
Hypothesis em_d : mapa w !! d = Some tD.
Hypothesis tem_a : 0 < tropas tA.
Hypothesis tem_d : 0 < tropas tD.

(** Both checks pass and the dice are rolled. *)
Ltac rolar :=
  unfold simularAtaque; executar;
  destruct (Z.leb_spec (tropas tA) 0); [lia|]; executar;
  destruct (Z.leb_spec (tropas tD) 0); [lia|]; executar;
  change (CInt.add (CInt.rem (Z.of_nat (rand_seq w (rand_pos w))) 6) 1)
    with (dadoAtaque_de w);
  change (CInt.add (CInt.rem (Z.of_nat (rand_seq w (S (rand_pos w)))) 6) 1)
    with (dadoDefesa_de w).

(** The defender rolls higher: nothing is written. *)
Lemma simularAtaque_defesa :
  dadoAtaque_de w < dadoDefesa_de w ->
  simularAtaque a d cj w =
  Ret tt {| mapa := mapa w; rand_seq := rand_seq w;
            rand_pos := S (S (rand_pos w));
            saida := saida w
                     ++ anuncio w tA tD ++ [DefesaBemSucedida; LinhaEmBranco] |}.
Proof using em_a em_d tem_a tem_d.
  intros Hdados. rolar.
  destruct (Z.geb_spec (dadoAtaque_de w) (dadoDefesa_de w)); [lia|].
  simpl. rewrite <- !app_assoc. reflexivity.
Qed.

(** The attacker rolls at least as high and the defender has troops
    left: the defender loses one troop. *)
Lemma simularAtaque_perda :
  CInt.in_range (tropas tD) ->
  dadoAtaque_de w >= dadoDefesa_de w -> 0 < tropas tD - 1 ->
  simularAtaque a d cj w =
  Ret tt {| mapa := <[d := set_tropas tD (tropas tD - 1)]> (mapa w);
            rand_seq := rand_seq w;
            rand_pos := S (S (rand_pos w));
            saida := saida w
                     ++ anuncio w tA tD
                     ++ [PerdeTropa (c_str (nome tD)) (tropas tD - 1);
                         LinhaEmBranco] |}.
Proof using em_a em_d tem_a tem_d.
  intros Hrd Hdados Hresta. rolar.
  destruct (Z.geb_spec (dadoAtaque_de w) (dadoDefesa_de w)); [|lia].
  executar. rewrite sub_1_positive by assumption.
  destruct (Z.leb_spec (tropas tD - 1) 0); [lia|].
  simpl. rewrite <- !app_assoc. reflexivity.
Qed.

(** The attacker rolls at least as high and the defender had its last
    troop: the territory is conquered. *)
Lemma simularAtaque_conquista :
  a <> d ->
  CInt.in_range (tropas tA) -> CInt.in_range (tropas tD) ->
  dadoAtaque_de w >= dadoDefesa_de w -> tropas tD - 1 <= 0 ->
  simularAtaque a d cj w =
  Ret tt
    {| mapa :=
         <[a := set_tropas tA (Z.max (tropas tA - 1) 0)]>
           (<[d := {| nome := nome tD;
                      corExercito := copiar TAM_COR (corExercito tA);
                      tropas := 1 |}]> (mapa w));
       rand_seq := rand_seq w;
       rand_pos := S (S (rand_pos w));
       saida :=
         saida w
         ++ anuncio w tA tD
         ++ PerdeTropa (c_str (nome tD)) (tropas tD - 1)
            :: Conquistado (c_str (nome tD)) (dono tA)
            :: (if tropas tA >? 1
                then [TropaMovida (c_str (nome tA)) (c_str (nome tD))]
                else [])
            ++ [LinhaEmBranco] |}.
Proof using em_a em_d tem_a tem_d.
  intros Hne Hra Hrd Hdados Hultima. rolar.
  destruct (Z.geb_spec (dadoAtaque_de w) (dadoDefesa_de w)); [|lia].
  executar. rewrite sub_1_positive by assumption.
  destruct (Z.leb_spec (tropas tD - 1) 0); [|lia].
  rewrite (conquista_exec _ a d tA (set_tropas tD (tropas tD - 1)));
    simpl; try assumption.
  - rewrite list_insert_insert_eq, <- !app_assoc. reflexivity.
  - rewrite list_lookup_insert_ne by congruence. assumption.
  - apply list_lookup_insert_eq. dentro_do_mapa.
Qed.

End Ataque.

Lemma dados_entre_1_e_6 w :
  1 <= dadoAtaque_de w <= 6 /\ 1 <= dadoDefesa_de w <= 6.
Proof. split; apply dado_range. Qed.

Lemma Territorio_ok_tropas t : Territorio_ok t -> CInt.in_range (tropas t).
Proof. unfold Territorio_ok. tauto. Qed.

Lemma Territorio_ok_dono t :
  Territorio_ok t -> c_str (copiar TAM_COR (corExercito t)) = dono t.
Proof.
  intros (_ & Hlen & _ & Hterm & _). apply c_str_copiar; [assumption | lia].
Qed.

(** Records of the reference sizes are well formed. *)
Ltac bem_formado :=
  unfold Territorio_ok, CInt.in_range, CInt.INT_MIN, CInt.INT_MAX; simpl;
  repeat split; try reflexivity; lia.

(** [faseDeAtaque] calls [simularAtaque] only on two different records of
    the map; any other choice of indices cancels the attack. *)
Lemma atacar_escolhidos_casos territorios total atk def cj w :
  Z.of_nat total <= CInt.INT_MAX ->
  atacar_escolhidos territorios total atk def cj w = printf AtaqueCancelado w
  \/ exists a d : nat,
       a <> d /\ (a < total)%nat /\ (d < total)%nat /\
       atacar_escolhidos territorios total atk def cj w =
       simularAtaque (territorios + a) (territorios + d) cj w.
Proof.
  intros Hmax. unfold atacar_escolhidos.
  rewrite wrap_in_range
    by (unfold CInt.in_range, CInt.INT_MIN, CInt.INT_MAX in *; lia).
  destruct (Z.ltb_spec atk 1); [now left |].
  destruct (Z.gtb_spec atk (Z.of_nat total)); [now left |].
  destruct (Z.ltb_spec def 1); [now left |].
  destruct (Z.gtb_spec def (Z.of_nat total)); [now left |].
  destruct (Z.eqb_spec atk def); [now left |].
  right. exists (Z.to_nat (atk - 1)), (Z.to_nat (def - 1)).
  simpl. repeat split; lia.
Qed.

(** On one and the same record the conquest would leave no troop at all:
    the check of [faseDeAtaque] is what C1 rests on. *)
Example simularAtaque_sobre_si_mesmo :
  legenda (match simularAtaque 0 0 corJogador_main
                   (mundo_de [territorio "Amazonas" "Verde" 1] 5 0) with
           | Ret _ w' => mapa w'
           | Indefinido => []
           end)
  = [("Amazonas", "Verde", 0)]%string.
Proof. reflexivity. Qed.

(** An attack keeps every record of the map well formed. *)
Lemma simularAtaque_preserva_ok w a d cj tA tD :
  a <> d -> mapa w !! a = Some tA -> mapa w !! d = Some tD ->
  Forall Territorio_ok (mapa w) ->
  exists w', simularAtaque a d cj w = Ret tt w' /\
             Forall Territorio_ok (mapa w').
Proof.
  intros Hne Ha Hd Hok.
  assert (Hoka : Territorio_ok tA)
    by (eapply Forall_lookup_1 in Hok; eassumption).
  assert (Hokd : Territorio_ok tD)
    by (eapply Forall_lookup_1 in Hok; eassumption).
  pose proof (Territorio_ok_tropas _ Hoka) as Hra.
  pose proof (Territorio_ok_tropas _ Hokd) as Hrd.
  destruct (Z_le_gt_dec (tropas tA) 0) as [Hza|Hpa].
  { eexists. split;
      [eapply simularAtaque_atacante_vazio; eassumption | assumption]. }
  destruct (Z_le_gt_dec (tropas tD) 0) as [Hzd|Hpd].
  { eexists. split;
      [eapply simularAtaque_defensor_vazio; eassumption || lia
      | assumption]. }
  destruct (Z_lt_ge_dec (dadoAtaque_de w) (dadoDefesa_de w)) as [Hdef|Hatq].
  { eexists. split;
      [apply simularAtaque_defesa with (tA := tA) (tD := tD);
       assumption || lia | assumption]. }
  destruct Hoka as (Hna & Hca & Htna & Htca & _).
  destruct Hokd as (Hnd & Hcd & Htnd & Htcd & _).
  unfold CInt.in_range, CInt.INT_MIN, CInt.INT_MAX in *.
  destruct (Z_le_gt_dec (tropas tD - 1) 0) as [Hultima|Hresta].
  - eexists. split;
      [apply simularAtaque_conquista with (tA := tA) (tD := tD);
       assumption || lia |].
    simpl. repeat apply Forall_insert; try assumption.
    + unfold Territorio_ok. simpl.
      rewrite length_copiar by (unfold TAM_COR; lia).
      rewrite terminated_copiar.
      unfold CInt.in_range, CInt.INT_MIN, CInt.INT_MAX. repeat split; auto; lia.
    + unfold Territorio_ok, CInt.in_range, CInt.INT_MIN, CInt.INT_MAX.
      simpl. repeat split; auto; lia.
  - eexists. split;
      [apply simularAtaque_perda with (tA := tA) (tD := tD);
       assumption || lia |].
    simpl. apply Forall_insert; try assumption.
    unfold Territorio_ok, CInt.in_range, CInt.INT_MIN, CInt.INT_MAX.
    simpl. repeat split; auto; lia.
Qed.

(** ** The claims about combat *)

(** C1.  A conquest: when attacker and defender both have troops, the
    attacker's die is at least the defender's and the defender was down to
    its last troop, [simularAtaque] returns with the defender owned by the
    attacker's colour and holding 1 troop, and the attacker holding
    [max (tropas - 1) 0]. *)
Theorem conquest_transfers_territory w a d cj tA tD :
  a <> d -> mapa w !! a = Some tA -> mapa w !! d = Some tD ->
  Territorio_ok tA -> Territorio_ok tD ->
  0 < tropas tA -> 0 < tropas tD ->
  dadoAtaque_de w >= dadoDefesa_de w -> tropas tD - 1 <= 0 ->
  exists w' tA' tD',
    simularAtaque a d cj w = Ret tt w' /\
    mapa w' !! a = Some tA' /\ mapa w' !! d = Some tD' /\
    dono tD' = dono tA' /\ dono tA' = dono tA /\
    tropas tD' = 1 /\
    tropas tA' = Z.max (tropas tA - 1) 0.
Proof.
  intros Hne Ha Hd Hoka Hokd Hta Htd Hdados Hultima.
  eexists _, _, _. split.
  - apply simularAtaque_conquista with (tA := tA) (tD := tD);
      auto using Territorio_ok_tropas.
  - simpl. split; [apply list_lookup_insert_eq; dentro_do_mapa |].
    split.
    + rewrite list_lookup_insert_ne by congruence.
      apply list_lookup_insert_eq. dentro_do_mapa.
    + unfold dono. simpl. rewrite (Territorio_ok_dono tA Hoka). auto.
Qed.

(** Scenario A of the specification: 5 troops attack 1, rolls 6 and 1. *)
Lemma conquest_transfers_territory_witness :
  exists w' tA' tD',
    simularAtaque 0 1 corJogador_main
      (mundo_de [territorio "Amazonas" "Verde" 5;
                 territorio "Caatinga" "Amarelo" 1] 5 0) = Ret tt w' /\
    mapa w' !! 0%nat = Some tA' /\ mapa w' !! 1%nat = Some tD' /\
    dono tD' = dono tA' /\
    dono tA' = dono (territorio "Amazonas" "Verde" 5) /\
    tropas tD' = 1 /\
    tropas tA' = Z.max (5 - 1) 0.
Proof.
  apply (conquest_transfers_territory
           (mundo_de [territorio "Amazonas" "Verde" 5;
                      territorio "Caatinga" "Amarelo" 1] 5 0)
           0 1 corJogador_main
           (territorio "Amazonas" "Verde" 5)
           (territorio "Caatinga" "Amarelo" 1)).
  - lia.
  - reflexivity.
  - reflexivity.
  - bem_formado.
  - bem_formado.
  - simpl; lia.
  - simpl; lia.
  - vm_compute. discriminate.
  - simpl; lia.
Defined.

(** C2.  With troops on both sides: when the attacker's die is at least
    the defender's (a tie included) the run passes through a world [w1]
    whose map is the old one with the defender holding one troop less, and
    the conquest handling and the closing line run from [w1]; when the
    defender's die is higher the map is returned as it was. *)
Theorem roll_decides_loss w a d cj tA tD :
  a <> d -> mapa w !! a = Some tA -> mapa w !! d = Some tD ->
  Territorio_ok tA -> Territorio_ok tD ->
  0 < tropas tA -> 0 < tropas tD ->
  exists w',
    simularAtaque a d cj w = Ret tt w' /\
    (dadoAtaque_de w >= dadoDefesa_de w ->
     exists w1,
       mapa w1 = <[d := set_tropas tD (tropas tD - 1)]> (mapa w) /\
       ((if tropas tD - 1 <=? 0 then conquista a d else ret tt) ;;
        printf LinhaEmBranco) w1 = Ret tt w' /\
       (0 < tropas tD - 1 -> mapa w' = mapa w1)) /\
    (dadoDefesa_de w > dadoAtaque_de w -> mapa w' = mapa w).
Proof.
  intros Hne Ha Hd Hoka Hokd Hta Htd.
  pose proof (Territorio_ok_tropas _ Hoka) as Hra.
  pose proof (Territorio_ok_tropas _ Hokd) as Hrd.
  destruct (Z_lt_ge_dec (dadoAtaque_de w) (dadoDefesa_de w)) as [Hdef|Hatq].
  - eexists. split; [apply simularAtaque_defesa with (tA := tA) (tD := tD);
                     assumption |].
    split; [lia | reflexivity].
  - destruct (Z_le_gt_dec (tropas tD - 1) 0) as [Hultima|Hresta].
    + eexists. split;
        [apply simularAtaque_conquista with (tA := tA) (tD := tD);
         assumption |].
      split; [intros _ | lia].
      exists {| mapa := <[d := set_tropas tD (tropas tD - 1)]> (mapa w);
                rand_seq := rand_seq w;
                rand_pos := S (S (rand_pos w));
                saida := saida w ++ anuncio w tA tD
                         ++ [PerdeTropa (c_str (nome tD)) (tropas tD - 1)] |}.
      split; [reflexivity |]. split; [| lia].
      destruct (Z.leb_spec (tropas tD - 1) 0); [|lia].
      unfold bind.
      rewrite (conquista_exec _ a d tA (set_tropas tD (tropas tD - 1)));
        simpl; try assumption.
      * unfold printf. simpl.
        rewrite list_insert_insert_eq, <- !app_assoc. reflexivity.
      * rewrite list_lookup_insert_ne by congruence. assumption.
      * apply list_lookup_insert_eq. dentro_do_mapa.
    + eexists. split;
        [apply simularAtaque_perda with (tA := tA) (tD := tD);
         assumption || lia |].
      split; [intros _ | lia].
      exists {| mapa := <[d := set_tropas tD (tropas tD - 1)]> (mapa w);
                rand_seq := rand_seq w;
                rand_pos := S (S (rand_pos w));
                saida := saida w ++ anuncio w tA tD
                         ++ [PerdeTropa (c_str (nome tD)) (tropas tD - 1)] |}.
      split; [reflexivity |]. split; [| reflexivity].
      destruct (Z.leb_spec (tropas tD - 1) 0); [lia|].
      unfold bind, ret, printf. simpl.
      rewrite <- !app_assoc. reflexivity.
Qed.

(** A tie on a defender with two troops: rolls 3 and 3. *)
Lemma roll_decides_loss_witness :
  exists w',
    simularAtaque 0 1 corJogador_main
      (mundo_de [territorio "Amazonas" "Verde" 3;
                 territorio "Cerrado" "Azul" 2] 2 2) = Ret tt w' /\
    (dadoAtaque_de (mundo_de [territorio "Amazonas" "Verde" 3;
                              territorio "Cerrado" "Azul" 2] 2 2)
     >= dadoDefesa_de (mundo_de [territorio "Amazonas" "Verde" 3;
                                 territorio "Cerrado" "Azul" 2] 2 2) ->
     exists w1,
       mapa w1 = <[1%nat := set_tropas (territorio "Cerrado" "Azul" 2)
                              (tropas (territorio "Cerrado" "Azul" 2) - 1)]>
                   (mapa (mundo_de [territorio "Amazonas" "Verde" 3;
                                    territorio "Cerrado" "Azul" 2] 2 2)) /\
       ((if tropas (territorio "Cerrado" "Azul" 2) - 1 <=? 0
         then conquista 0 1 else ret tt) ;;
        printf LinhaEmBranco) w1 = Ret tt w' /\
       (0 < tropas (territorio "Cerrado" "Azul" 2) - 1 ->
        mapa w' = mapa w1)) /\
    (dadoDefesa_de (mundo_de [territorio "Amazonas" "Verde" 3;
                              territorio "Cerrado" "Azul" 2] 2 2)
     > dadoAtaque_de (mundo_de [territorio "Amazonas" "Verde" 3;
                                territorio "Cerrado" "Azul" 2] 2 2) ->
     mapa w' = mapa (mundo_de [territorio "Amazonas" "Verde" 3;
                               territorio "Cerrado" "Azul" 2] 2 2)).
Proof.
  apply (roll_decides_loss
           (mundo_de [territorio "Amazonas" "Verde" 3;
                      territorio "Cerrado" "Azul" 2] 2 2)
           0 1 corJogador_main
           (territorio "Amazonas" "Verde" 3)
           (territorio "Cerrado" "Azul" 2)).
  - lia.
  - reflexivity.
  - reflexivity.
  - bem_formado.
  - bem_formado.
  - simpl; lia.
  - simpl; lia.
Defined.

(** C3.  An attacker, or a defender, without troops: [simularAtaque]
    prints the message of the check that failed and returns with the map
    as it was and no die drawn. *)
Theorem empty_territory_aborts_attack w a d cj tA tD :
  mapa w !! a = Some tA -> mapa w !! d = Some tD ->
  tropas tA <= 0 \/ tropas tD <= 0 ->
  exists w',
    simularAtaque a d cj w = Ret tt w' /\
    mapa w' = mapa w /\
    rand_pos w' = rand_pos w /\
    saida w' = saida w
               ++ [if tropas tA <=? 0
                   then AtacanteSemTropas (c_str (nome tA))
                   else DefensorVazio (c_str (nome tD))].
Proof.
  intros Ha Hd Hvazio.
  destruct (Z.leb_spec (tropas tA) 0) as [Hta|Hta].
  - eexists. split; [eapply simularAtaque_atacante_vazio; eassumption |].
    simpl. auto.
  - eexists. split;
      [eapply simularAtaque_defensor_vazio; eassumption || lia |].
    simpl. auto.
Qed.

(** An attack on a territory that was left without troops. *)
Lemma empty_territory_aborts_attack_witness :
  exists w',
    simularAtaque 0 1 corJogador_main
      (mundo_de [territorio "Amazonas" "Verde" 3;
                 territorio "Cerrado" "Azul" 0] 5 0) = Ret tt w' /\
    mapa w' = [territorio "Amazonas" "Verde" 3;
               territorio "Cerrado" "Azul" 0] /\
    rand_pos w' = 0%nat /\
    saida w' = [] ++ [DefensorVazio (c_str (copiar TAM_NOME (lit "Cerrado")))].
Proof.
  apply (empty_territory_aborts_attack
           (mundo_de [territorio "Amazonas" "Verde" 3;
                      territorio "Cerrado" "Azul" 0] 5 0)
           0 1 corJogador_main
           (territorio "Amazonas" "Verde" 3)
           (territorio "Cerrado" "Azul" 0)).
  - reflexivity.
  - reflexivity.
  - right. simpl. lia.
Defined.

(** C4.  Troop counts stay non-negative: from an attacker and a defender
    with [tropas >= 0], [simularAtaque] returns with both still [>= 0],
    whatever the dice. *)
Theorem troops_stay_nonnegative w a d cj tA tD :
  a <> d -> mapa w !! a = Some tA -> mapa w !! d = Some tD ->
  Territorio_ok tA -> Territorio_ok tD ->
  0 <= tropas tA -> 0 <= tropas tD ->
  exists w' tA' tD',
    simularAtaque a d cj w = Ret tt w' /\
    mapa w' !! a = Some tA' /\ mapa w' !! d = Some tD' /\
    0 <= tropas tA' /\ 0 <= tropas tD'.
Proof.
  intros Hne Ha Hd Hoka Hokd Hta Htd.
  pose proof (Territorio_ok_tropas _ Hoka) as Hra.
  pose proof (Territorio_ok_tropas _ Hokd) as Hrd.
  destruct (Z_le_gt_dec (tropas tA) 0) as [Hza|Hpa].
  { eexists; exists tA, tD. split;
      [eapply simularAtaque_atacante_vazio; eassumption | auto]. }
  destruct (Z_le_gt_dec (tropas tD) 0) as [Hzd|Hpd].
  { eexists; exists tA, tD. split;
      [eapply simularAtaque_defensor_vazio; eassumption || lia | auto]. }
  destruct (Z_lt_ge_dec (dadoAtaque_de w) (dadoDefesa_de w)) as [Hdef|Hatq].
  { eexists; exists tA, tD. split;
      [apply simularAtaque_defesa with (tA := tA) (tD := tD);
       assumption || lia | auto]. }
  destruct (Z_le_gt_dec (tropas tD - 1) 0) as [Hultima|Hresta].
  - eexists _, _, _. split;
      [apply simularAtaque_conquista with (tA := tA) (tD := tD);
       assumption || lia |].
    simpl. split; [apply list_lookup_insert_eq; dentro_do_mapa |].
    split; [rewrite list_lookup_insert_ne by congruence;
            apply list_lookup_insert_eq; dentro_do_mapa |].
    simpl. lia.
  - eexists _, _, _. split;
      [apply simularAtaque_perda with (tA := tA) (tD := tD);
       assumption || lia |].
    simpl. split; [rewrite list_lookup_insert_ne by congruence;
                   eassumption |].
    split; [apply list_lookup_insert_eq; dentro_do_mapa |].
    simpl. lia.
Qed.

(** Scenario B of the specification: the last troop of each side, rolls 6
    and 1; the attacker is left with no troops. *)
Lemma troops_stay_nonnegative_witness :
  exists w' tA' tD',
    simularAtaque 0 1 corJogador_main
      (mundo_de [territorio "Amazonas" "Verde" 1;
                 territorio "Cerrado" "Azul" 1] 5 0) = Ret tt w' /\
    mapa w' !! 0%nat = Some tA' /\ mapa w' !! 1%nat = Some tD' /\
    0 <= tropas tA' /\ 0 <= tropas tD'.
Proof.
  apply (troops_stay_nonnegative
           (mundo_de [territorio "Amazonas" "Verde" 1;
                      territorio "Cerrado" "Azul" 1] 5 0)
           0 1 corJogador_main
           (territorio "Amazonas" "Verde" 1)
           (territorio "Cerrado" "Azul" 1)).
  - lia.
  - reflexivity.
  - reflexivity.
  - bem_formado.
  - bem_formado.
  - simpl; lia.
  - simpl; lia.
Defined.

(** C9.  The troops of attacker and defender together: unchanged when the
    defender's die is higher, one less when the attacker's die is at least
    the defender's, with or without conquest. *)
Theorem attack_never_adds_troops w a d cj tA tD :
  a <> d -> mapa w !! a = Some tA -> mapa w !! d = Some tD ->
  Territorio_ok tA -> Territorio_ok tD ->
  0 < tropas tA -> 0 < tropas tD ->
  exists w' tA' tD',
    simularAtaque a d cj w = Ret tt w' /\
    mapa w' !! a = Some tA' /\ mapa w' !! d = Some tD' /\
    (dadoDefesa_de w > dadoAtaque_de w ->
     tropas tA' + tropas tD' = tropas tA + tropas tD) /\
    (dadoAtaque_de w >= dadoDefesa_de w ->
     tropas tA' + tropas tD' = tropas tA + tropas tD - 1).
Proof.
  intros Hne Ha Hd Hoka Hokd Hta Htd.
  pose proof (Territorio_ok_tropas _ Hoka) as Hra.
  pose proof (Territorio_ok_tropas _ Hokd) as Hrd.
  destruct (Z_lt_ge_dec (dadoAtaque_de w) (dadoDefesa_de w)) as [Hdef|Hatq].
  { eexists; exists tA, tD. split;
      [apply simularAtaque_defesa with (tA := tA) (tD := tD); assumption |].
    simpl. repeat split; auto; lia. }
  destruct (Z_le_gt_dec (tropas tD - 1) 0) as [Hultima|Hresta].
  - eexists _, _, _. split;
      [apply simularAtaque_conquista with (tA := tA) (tD := tD);
       assumption |].
    simpl. split; [apply list_lookup_insert_eq; dentro_do_mapa |].
    split; [rewrite list_lookup_insert_ne by congruence;
            apply list_lookup_insert_eq; dentro_do_mapa |].
    simpl. lia.
  - eexists _, _, _. split;
      [apply simularAtaque_perda with (tA := tA) (tD := tD);
       assumption || lia |].
    simpl. split; [rewrite list_lookup_insert_ne by congruence;
                   eassumption |].
    split; [apply list_lookup_insert_eq; dentro_do_mapa |].
    simpl. lia.
Qed.

(** Scenario C of the specification: 3 troops attack 2, rolls 2 and 5. *)
Lemma attack_never_adds_troops_witness :
  exists w' tA' tD',
    simularAtaque 0 1 corJogador_main
      (mundo_de [territorio "Amazonas" "Verde" 3;
                 territorio "Cerrado" "Azul" 2] 1 4) = Ret tt w' /\
    mapa w' !! 0%nat = Some tA' /\ mapa w' !! 1%nat = Some tD' /\
    (dadoDefesa_de (mundo_de [territorio "Amazonas" "Verde" 3;
                              territorio "Cerrado" "Azul" 2] 1 4)
     > dadoAtaque_de (mundo_de [territorio "Amazonas" "Verde" 3;
                                territorio "Cerrado" "Azul" 2] 1 4) ->
     tropas tA' + tropas tD' = 3 + 2) /\
    (dadoAtaque_de (mundo_de [territorio "Amazonas" "Verde" 3;
                              territorio "Cerrado" "Azul" 2] 1 4)
     >= dadoDefesa_de (mundo_de [territorio "Amazonas" "Verde" 3;
                                 territorio "Cerrado" "Azul" 2] 1 4) ->
     tropas tA' + tropas tD' = 3 + 2 - 1).
Proof.
  apply (attack_never_adds_troops
           (mundo_de [territorio "Amazonas" "Verde" 3;
                      territorio "Cerrado" "Azul" 2] 1 4)
           0 1 corJogador_main
           (territorio "Amazonas" "Verde" 3)
           (territorio "Cerrado" "Azul" 2)).
  - lia.
  - reflexivity.
  - reflexivity.
  - bem_formado.
  - bem_formado.
  - simpl; lia.
  - simpl; lia.
Defined.

(** C10.  [simularAtaque] never looks at [corJogador]: two calls that
    differ only in it give the same result. *)
Theorem attack_ignores_player_color a d cj1 cj2 w :
  simularAtaque a d cj1 w = simularAtaque a d cj2 w.
Proof. reflexivity. Qed.

(** ** Missions *)

Section Missoes.

Variables (w : Mundo) (territorios : nat).

Lemma restantes_S n i :
  (territorios + i + S n <= length (mapa w))%nat ->
  exists t, mapa w !! (territorios + i)%nat = Some t /\
            restantes (mapa w) territorios (S n) i = t :: restantes (mapa w) territorios n (S i).
Proof.
  intros Hlen.
  destruct (lookup_lt_is_Some_2 (mapa w) (territorios + i)) as [t Ht];
    [lia |].
  exists t. split; [assumption |]. unfold restantes.
  rewrite (drop_S _ _ _ Ht). simpl. now rewrite Nat.add_succ_r.
Qed.

(** Mission 0: the loop answers 1 exactly when no record it visits holds
    a living army of the target colour, and writes nothing. *)
Lemma procurar_exercito_spec alvo n : forall i,
  (territorios + i + n <= length (mapa w))%nat ->
  exists r, procurar_exercito n territorios i alvo w = Ret r w /\
            (r = 0 \/ r = 1) /\
            (r = 1 <-> Forall (fun t => ~ exercito_vivo alvo t)
                              (restantes (mapa w) territorios n i)).
Proof.
  induction n as [|n IH]; intros i Hlen.
  - exists 1. split; [reflexivity |]. split; [auto |].
    split; [constructor | reflexivity].
  - destruct (restantes_S n i Hlen) as (t & Ht & ->).
    simpl. rewrite (bind_Ret _ _ _ _ _ (ler_Some _ _ _ Ht)).
    destruct (strcmp (corExercito t) alvo =? 0) eqn:Hcor;
      [destruct (tropas t >? 0) eqn:Htr |]; simpl.
    + exists 0. split; [reflexivity |]. split; [auto |].
      split; [discriminate |]. intros H. exfalso.
      apply Forall_cons in H as [H _]. apply H. split.
      * apply strcmp_0, Z.eqb_eq, Hcor.
      * lia.
    + destruct (IH (S i)) as (r & Hr & Hr01 & Hiff); [lia |].
      exists r. split; [assumption |]. split; [assumption |].
      rewrite Hiff, Forall_cons. unfold exercito_vivo at 2.
      intuition lia.
    + destruct (IH (S i)) as (r & Hr & Hr01 & Hiff); [lia |].
      exists r. split; [assumption |]. split; [assumption |].
      rewrite Hiff, Forall_cons. unfold exercito_vivo at 2.
      apply Z.eqb_neq in Hcor. rewrite strcmp_0 in Hcor.
      unfold dono. intuition.
Qed.

(** Mission 1: the loop adds to [contador] the records of the player's
    colour it visits, as long as the count fits an [int]. *)
Lemma contar_do_jogador_spec cj n : forall i contador,
  (territorios + i + n <= length (mapa w))%nat ->
  0 <= contador -> contador + Z.of_nat n <= CInt.INT_MAX ->
  contar_do_jogador n territorios i cj contador w =
  Ret (contador + Z.of_nat (territorios_de cj (restantes (mapa w) territorios n i))) w.
Proof.
  induction n as [|n IH]; intros i c Hlen Hc Hmax.
  - simpl. unfold ret. f_equal. unfold territorios_de. simpl. lia.
  - destruct (restantes_S n i Hlen) as (t & Ht & ->).
    simpl. rewrite (bind_Ret _ _ _ _ _ (ler_Some _ _ _ Ht)).
    unfold territorios_de. rewrite filter_cons.
    destruct (strcmp (corExercito t) cj =? 0) eqn:Hcor.
    + apply Z.eqb_eq, strcmp_0 in Hcor.
      rewrite decide_True by exact Hcor.
      unfold CInt.add. rewrite wrap_in_range
        by (unfold CInt.in_range, CInt.INT_MIN, CInt.INT_MAX in *; lia).
      rewrite IH by lia. f_equal. unfold territorios_de. simpl. lia.
    + apply Z.eqb_neq in Hcor. rewrite strcmp_0 in Hcor.
      rewrite decide_False by exact Hcor.
      rewrite IH by lia. reflexivity.
Qed.

End Missoes.

Lemma territorios_de_le cor m : (territorios_de cor m <= length m)%nat.
Proof. unfold territorios_de. apply length_filter. Qed.

(** C5.  Mission 0 (destroy the army of [alvoMissao]) over the [total]
    territories of the map: [verificarVitoria] returns 1 exactly when none
    of them has the target colour together with [tropas > 0], 0 otherwise,
    and leaves the world as it was. *)
Theorem destroy_army_evaluation w total alvoMissao corJogador :
  (total <= length (mapa w))%nat ->
  exists r,
    verificarVitoria 0 total 0 alvoMissao corJogador w = Ret r w /\
    (r = 0 \/ r = 1) /\
    (r = 1 <->
     Forall (fun t => ~ (dono t = c_str alvoMissao /\ 0 < tropas t))
            (take total (mapa w))).
Proof.
  intros Hlen. unfold verificarVitoria. simpl.
  destruct (procurar_exercito_spec w 0 alvoMissao total 0) as (r & Hr & H01 & Hiff);
    [lia |].
  exists r. repeat split; try assumption; apply Hiff.
Qed.

(** A map of five records of which the colour Azul owns none with troops
    left. *)
Lemma destroy_army_evaluation_witness :
  exists r,
    verificarVitoria 0 2 0 (lit "Azul") corJogador_main
      (mundo_de [territorio "Amazonas" "Verde" 5;
                 territorio "Cerrado" "Azul" 0] 0 0)
    = Ret r (mundo_de [territorio "Amazonas" "Verde" 5;
                       territorio "Cerrado" "Azul" 0] 0 0) /\
    (r = 0 \/ r = 1) /\
    (r = 1 <->
     Forall (fun t => ~ (dono t = c_str (lit "Azul") /\ 0 < tropas t))
            (take 2 [territorio "Amazonas" "Verde" 5;
                     territorio "Cerrado" "Azul" 0])).
Proof.
  apply (destroy_army_evaluation
           (mundo_de [territorio "Amazonas" "Verde" 5;
                      territorio "Cerrado" "Azul" 0] 0 0)
           2 (lit "Azul") corJogador_main).
  simpl. lia.
Defined.

(** C6.  Mission 1 (conquer three territories) over the [total]
    territories of the map: [verificarVitoria] returns 1 exactly when the
    player's colour owns at least 3 of them, whatever [total] is, and 0
    otherwise; the world is left as it was. *)
Theorem conquer_threshold_evaluation w total alvoMissao corJogador :
  (total <= length (mapa w))%nat ->
  Z.of_nat total <= CInt.INT_MAX ->
  exists r,
    verificarVitoria 0 total 1 alvoMissao corJogador w = Ret r w /\
    (r = 0 \/ r = 1) /\
    (r = 1 <-> (3 <= territorios_de corJogador (take total (mapa w)))%nat).
Proof.
  intros Hlen Hmax. unfold verificarVitoria. simpl.
  rewrite (bind_Ret _ _ _ _ _
             (contar_do_jogador_spec w 0 corJogador total 0 0
                ltac:(lia) ltac:(lia) ltac:(lia))).
  unfold ret, restantes. rewrite Z.add_0_l, Nat.add_0_l, drop_0.
  destruct (Z.geb_spec
              (Z.of_nat (territorios_de corJogador (take total (mapa w)))) 3)
    as [Hge|Hlt].
  - exists 1. repeat split; auto; lia.
  - exists 0. repeat split; auto; try discriminate; lia.
Qed.

(** Scenario D of the specification: the player owns 3 of 5. *)
Lemma conquer_threshold_evaluation_witness :
  exists r,
    verificarVitoria 0 5 1 (lit "3Territorios") corJogador_main
      (mundo_de [territorio "Amazonas" "Azul" 1;
                 territorio "Cerrado" "Azul" 4;
                 territorio "Pantanal" "Vermelho" 6;
                 territorio "Caatinga" "Azul" 1;
                 territorio "Mata Atlantica" "Roxo" 5] 0 0)
    = Ret r (mundo_de [territorio "Amazonas" "Azul" 1;
                       territorio "Cerrado" "Azul" 4;
                       territorio "Pantanal" "Vermelho" 6;
                       territorio "Caatinga" "Azul" 1;
                       territorio "Mata Atlantica" "Roxo" 5] 0 0) /\
    (r = 0 \/ r = 1) /\
    (r = 1 <->
     (3 <= territorios_de corJogador_main
             (take 5 [territorio "Amazonas" "Azul" 1;
                      territorio "Cerrado" "Azul" 4;
                      territorio "Pantanal" "Vermelho" 6;
                      territorio "Caatinga" "Azul" 1;
                      territorio "Mata Atlantica" "Roxo" 5]))%nat).
Proof.
  apply (conquer_threshold_evaluation
           (mundo_de [territorio "Amazonas" "Azul" 1;
                      territorio "Cerrado" "Azul" 4;
                      territorio "Pantanal" "Vermelho" 6;
                      territorio "Caatinga" "Azul" 1;
                      territorio "Mata Atlantica" "Roxo" 5] 0 0)
           5 (lit "3Territorios") corJogador_main).
  - simpl. lia.
  - unfold CInt.INT_MAX. simpl. lia.
Defined.

(** ** Setup *)

(** The rows of [mapa_referencia] are those of the three seed tables. *)
Lemma mapa_referencia_tabelas i n c t :
  nomes !! i = Some n -> cores !! i = Some c ->
  tropas_iniciais !! i = Some t ->
  mapa_referencia !! i = Some {| nome := copiar TAM_NOME n;
                                 corExercito := copiar TAM_COR c;
                                 tropas := t |}.
Proof.
  do 5 (destruct i as [|i]; [now intros [= <-] [= <-] [= <-] |]).
  discriminate.
Qed.

Lemma legenda_mapa_referencia :
  legenda mapa_referencia =
  [("Amazonas", "Verde", 5); ("Cerrado", "Azul", 4);
   ("Pantanal", "Vermelho", 6); ("Caatinga", "Amarelo", 3);
   ("Mata Atlantica", "Roxo", 5)]%string.
Proof. reflexivity. Qed.

Lemma mapa_referencia_ok : Forall Territorio_ok mapa_referencia.
Proof. repeat constructor; bem_formado. Qed.

(** Filling up to five records: the first [total] rows of the tables. *)
Lemma inicializarTerritorios_exec w total :
  (total <= TOTAL_TERRITORIOS)%nat ->
  inicializarTerritorios 0 total
    (com_mapa w (repeat Territorio_zerado total)) =
  Ret tt (com_mapa w (take total mapa_referencia)).
Proof.
  unfold TOTAL_TERRITORIOS. intros H.
  do 6 (destruct total as [|total]; [reflexivity |]). lia.
Qed.

(** Past the fifth record the loop reads [nomes[5]]. *)
Lemma inicializarTerritorios_alem w total :
  (TOTAL_TERRITORIOS < total)%nat ->
  inicializarTerritorios 0 total
    (com_mapa w (repeat Territorio_zerado total)) = Indefinido.
Proof.
  unfold TOTAL_TERRITORIOS. intros H.
  do 6 (destruct total as [|total]; [lia |]). reflexivity.
Qed.

(** C7, as stated, fails: asked for six territories the allocation
    succeeds with six records, and the setup neither reports a failure nor
    returns an empty map; the loop reads past the five rows of the
    tables. *)
Lemma initialize_checks_count_counterexample :
  alocarMapa 6 true = Some (repeat Territorio_zerado 6) /\
  preparar 6 true (Mundo_inicial (fun _ => O)) = Some Indefinido /\
  ~ falhou (preparar 6 true (Mundo_inicial (fun _ => O))).
Proof.
  split; [reflexivity |]. split; [reflexivity |].
  intros [H | (w' & H & _)]; discriminate H.
Qed.

(** C7, amended.  For a count up to the size of the seed tables (5) the
    setup returns a map of [total] territories, the first [total] rows of
    the tables, when the allocation succeeds, and fails when it does
    not. *)
Theorem initialize_within_table w total :
  (total <= TOTAL_TERRITORIOS)%nat ->
  exists w',
    preparar total true w = Some (Ret tt w') /\
    mapa w' = take total mapa_referencia /\
    length (mapa w') = total /\
    preparar total false w = None.
Proof.
  intros H. exists (com_mapa w (take total mapa_referencia)).
  split; [| split; [reflexivity | split; [| reflexivity]]].
  - unfold preparar. simpl. now rewrite inicializarTerritorios_exec.
  - simpl. rewrite length_take. unfold TOTAL_TERRITORIOS in H. simpl. lia.
Qed.

(** The reference configuration: five territories. *)
Lemma initialize_within_table_witness :
  exists w',
    preparar 5 true (Mundo_inicial (fun _ => O)) = Some (Ret tt w') /\
    mapa w' = take 5 mapa_referencia /\
    length (mapa w') = 5%nat /\
    preparar 5 false (Mundo_inicial (fun _ => O)) = None.
Proof.
  apply (initialize_within_table (Mundo_inicial (fun _ => O)) 5).
  unfold TOTAL_TERRITORIOS. lia.
Defined.

(** C8, as stated, fails: right after the setup of [main] the second
    territory, Cerrado, is owned by the player's colour, Azul. *)
Lemma no_initial_player_territory_counterexample :
  ~ (forall w' i t,
       preparar TOTAL_TERRITORIOS true (Mundo_inicial (fun _ => O))
       = Some (Ret tt w') ->
       mapa w' !! i = Some t ->
       dono t <> c_str corJogador_main).
Proof.
  intros H.
  apply (H (com_mapa (Mundo_inicial (fun _ => O)) mapa_referencia)
           1%nat (territorio "Cerrado" "Azul" 4));
    reflexivity.
Qed.

(** C8, amended.  Right after the setup of [main] exactly one territory is
    owned by the player's colour: the second one. *)
Theorem one_initial_player_territory seq :
  exists w',
    preparar TOTAL_TERRITORIOS true (Mundo_inicial seq) = Some (Ret tt w') /\
    territorios_de corJogador_main (mapa w') = 1%nat /\
    forall i t,
      mapa w' !! i = Some t ->
      (dono t = c_str corJogador_main <-> i = 1%nat).
Proof.
  exists (com_mapa (Mundo_inicial seq) mapa_referencia).
  split; [reflexivity |]. split; [reflexivity |].
  intros i t. simpl.
  do 5 (destruct i as [|i];
        [intros [= <-]; split; [intros H; vm_compute in H | intros H];
         (reflexivity || discriminate H) |]).
  discriminate.
Qed.

(** * Further properties *)

(** ** A small program logic for [M] *)

Section Logica.

Context {A B : Type}.
Implicit Types (w : Mundo).

Lemma wp_Ret (m : M A) w (Q : A -> Mundo -> Prop) :
  wp m w Q <-> exists a w', m w = Ret a w' /\ Q a w'.
Proof.
  unfold wp. destruct (m w) as [a w'|].
  - split; [eauto |]. now intros (? & ? & [= <- <-] & ?).
  - split; [tauto |]. now intros (? & ? & ? & _).
Qed.

Lemma wp_ret (a : A) w (Q : A -> Mundo -> Prop) : Q a w -> wp (ret a) w Q.
Proof. exact id. Qed.

Lemma wp_bind (m : M A) (k : A -> M B) w (Q : B -> Mundo -> Prop) :
  wp m w (fun a w' => wp (k a) w' Q) -> wp (bind m k) w Q.
Proof. unfold wp, bind. now destruct (m w). Qed.

Lemma wp_mono (m : M A) w (Q Q' : A -> Mundo -> Prop) :
  wp m w Q -> (forall a w', Q a w' -> Q' a w') -> wp m w Q'.
Proof. unfold wp. destruct (m w); [auto | tauto]. Qed.

End Logica.

Lemma wp_rand w (Q : Z -> Mundo -> Prop) :
  Q (Z.of_nat (rand_seq w (rand_pos w)))
    {| mapa := mapa w; rand_seq := rand_seq w;
       rand_pos := S (rand_pos w); saida := saida w |} ->
  wp rand w Q.
Proof. exact id. Qed.

Lemma wp_consultar {A} (tab : list A) i x w (Q : A -> Mundo -> Prop) :
  tab !! i = Some x -> Q x w -> wp (consultar tab i) w Q.
Proof. unfold wp, consultar. now intros ->. Qed.

(** ** The string copies *)

Lemma c_str_strncpy_take src n :
  c_str (strncpy src n ++ [NUL]) = take n (c_str src).
Proof.
  revert src. induction n as [|n IH]; intros [|c src]; simpl;
    try reflexivity.
  destruct (is_nul c) eqn:Hc; simpl; [reflexivity |].
  rewrite Hc. now rewrite IH.
Qed.

(** X1.  The pair [strncpy(dst, src, cap - 1); dst[cap - 1] = '\0';] fills
    an array of [cap > 0] characters completely, leaves it terminated, and
    the string it then holds is the source string cut to [cap - 1]
    characters. *)
Theorem copy_fills_terminates_truncates cap src :
  (0 < cap)%nat ->
  length (copiar cap src) = cap /\
  terminated (copiar cap src) = true /\
  c_str (copiar cap src) = take (cap - 1) (c_str src).
Proof.
  intros H. split; [now apply length_copiar |].
  split; [apply terminated_copiar | apply c_str_strncpy_take].
Qed.

(** A name of 60 characters into the 50 of [nome]. *)
Lemma copy_fills_terminates_truncates_witness :
  length (copiar TAM_NOME (repeat "a"%char 60)) = TAM_NOME /\
  terminated (copiar TAM_NOME (repeat "a"%char 60)) = true /\
  c_str (copiar TAM_NOME (repeat "a"%char 60))
  = take (TAM_NOME - 1) (c_str (repeat "a"%char 60)).
Proof.
  apply (copy_fills_terminates_truncates TAM_NOME (repeat "a"%char 60)).
  unfold TAM_NOME. lia.
Defined.

(** ** One attack, seen from the map *)

(** Every attack on two records of the map returns, and what it leaves at
    [a] and [d] is one of the three outcomes of [desfecho]. *)
Lemma simularAtaque_desfecho w a d cj tA tD :
  a <> d -> mapa w !! a = Some tA -> mapa w !! d = Some tD ->
  CInt.in_range (tropas tA) -> CInt.in_range (tropas tD) ->
  exists tA' tD' n ev,
    simularAtaque a d cj w =
    Ret tt {| mapa := <[a := tA']> (<[d := tD']> (mapa w));
              rand_seq := rand_seq w;
              rand_pos := (n + rand_pos w)%nat;
              saida := saida w ++ ev |} /\
    desfecho tA tD tA' tD' /\
    (n = 0%nat \/ n = 2%nat).
Proof.
  intros Hne Ha Hd Hra Hrd.
  assert (Hid : <[a := tA]> (<[d := tD]> (mapa w)) = mapa w).
  { rewrite (list_insert_id _ d) by assumption.
    now apply list_insert_id. }
  destruct (Z_le_gt_dec (tropas tA) 0) as [Hza|Hpa].
  { exists tA, tD, 0%nat, [AtacanteSemTropas (c_str (nome tA))].
    rewrite Hid. split; [| split; [constructor | auto]].
    now apply simularAtaque_atacante_vazio. }
  destruct (Z_le_gt_dec (tropas tD) 0) as [Hzd|Hpd].
  { exists tA, tD, 0%nat, [DefensorVazio (c_str (nome tD))].
    rewrite Hid. split; [| split; [constructor | auto]].
    apply simularAtaque_defensor_vazio with (tA := tA); assumption || lia. }
  destruct (Z_lt_ge_dec (dadoAtaque_de w) (dadoDefesa_de w)) as [Hdef|Hatq].
  { exists tA, tD, 2%nat,
      (anuncio w tA tD ++ [DefesaBemSucedida; LinhaEmBranco]).
    rewrite Hid. split; [| split; [constructor | auto]].
    apply simularAtaque_defesa with (tA := tA) (tD := tD);
      assumption || lia. }
  destruct (Z_le_gt_dec (tropas tD - 1) 0) as [Hultima|Hresta].
  - eexists _, _, 2%nat, _. split;
      [apply simularAtaque_conquista with (tA := tA) (tD := tD);
       assumption || lia |].
    split; [apply desfecho_conquista; lia | auto].
  - exists tA, (set_tropas tD (tropas tD - 1)), 2%nat. eexists.
    rewrite (list_insert_id _ a)
      by (rewrite list_lookup_insert_ne by congruence; assumption).
    split; [apply simularAtaque_perda with (tA := tA);
            assumption || lia |].
    split; [apply desfecho_perda; lia | auto].
Qed.

(** ** Maps that follow one another *)

Lemma soma_tropas_insert (m : list Territorio) (i : nat) t t' :
  m !! i = Some t ->
  soma_tropas (<[i := t']> m) = soma_tropas m - tropas t + tropas t'.
Proof.
  revert i. induction m as [|x m IH]; intros [|i]; simpl;
    try discriminate.
  - intros [= ->]. lia.
  - intros H. rewrite (IH _ H). lia.
Qed.

Lemma nome_insert (m : list Territorio) (i : nat) t t' :
  m !! i = Some t -> nome t' = nome t ->
  nome <$> <[i := t']> m = nome <$> m.
Proof.
  intros Hi Hn. rewrite list_fmap_insert. apply list_insert_id.
  rewrite list_lookup_fmap, Hi. simpl. now rewrite Hn.
Qed.

Lemma sucede_refl m : sucede m m.
Proof.
  repeat split; auto; try lia. intros i t' H. eauto.
Qed.

Lemma sucede_trans m1 m2 m3 : sucede m1 m2 -> sucede m2 m3 -> sucede m1 m3.
Proof.
  intros (Hl & Hn & Hs & Hp & Hc & Hz) (Hl' & Hn' & Hs' & Hp' & Hc' & Hz').
  repeat split; try congruence; try lia; auto.
  - intros i t3 H3. destruct (Hc' _ _ H3) as (j & t2 & H2 & E2).
    destruct (Hc _ _ H2) as (k & t1 & H1 & E1).
    exists k, t1. split; [assumption | congruence].
Qed.

(** The outcomes of an attack on two records of a well-formed map. *)
Lemma desfecho_sucede (m : list Territorio) (a d : nat) tA tD tA' tD' :
  a <> d -> m !! a = Some tA -> m !! d = Some tD ->
  mapa_ok m -> desfecho tA tD tA' tD' ->
  sucede m (<[a := tA']> (<[d := tD']> m)) /\
  mapa_ok (<[a := tA']> (<[d := tD']> m)).
Proof.
  intros Hne Ha Hd Hok Hdes.
  assert (Hoka : Territorio_ok tA) by (eapply Forall_lookup_1; eassumption).
  assert (Hokd : Territorio_ok tD) by (eapply Forall_lookup_1; eassumption).
  assert (Ha' : <[d := tD']> m !! a = Some tA)
    by (rewrite list_lookup_insert_ne by congruence; assumption).
  assert (Hnomes : nome tA' = nome tA /\ nome tD' = nome tD)
    by (destruct Hdes; auto).
  assert (Hsoma : tropas tA' + tropas tD' <= tropas tA + tropas tD)
    by (destruct Hdes; simpl; lia).
  assert (Hpos : 0 <= tropas tA -> 0 <= tropas tD ->
                 0 <= tropas tA' /\ 0 <= tropas tD')
    by (destruct Hdes; simpl; lia).
  assert (Hdonos : dono tA' = dono tA /\
                   (dono tD' = dono tD \/ dono tD' = dono tA)).
  { destruct Hdes; auto. split; [reflexivity |]. right.
    unfold dono at 1. simpl. now apply Territorio_ok_dono. }
  assert (Hparados : (tropas tA <= 0 -> tA' = tA) /\
                     (tropas tD <= 0 -> tD' = tD))
    by (destruct Hdes; split; auto; lia).
  assert (Hoks : Territorio_ok tA' /\ Territorio_ok tD').
  { destruct Hoka as (Hna & Hca & Htna & Htca & Hra).
    destruct Hokd as (Hnd & Hcd & Htnd & Htcd & Hrd).
    unfold CInt.in_range, CInt.INT_MIN, CInt.INT_MAX in *.
    destruct Hdes; unfold Territorio_ok, CInt.in_range, CInt.INT_MIN,
      CInt.INT_MAX; simpl;
      rewrite ?length_copiar by (unfold TAM_COR; lia);
      rewrite ?terminated_copiar; repeat split; auto; lia. }
  destruct Hnomes as [Hna Hnd]. destruct Hdonos as [Hda Hdd].
  destruct Hparados as [Hpa Hpd]. destruct Hoks as [Hoka' Hokd'].
  split; [| repeat apply Forall_insert; assumption].
  split; [now rewrite !length_insert |].
  split.
  { rewrite (nome_insert _ a tA) by assumption.
    now apply nome_insert with (t := tD). }
  split.
  { rewrite (soma_tropas_insert _ a tA) by assumption.
    rewrite (soma_tropas_insert _ d tD) by assumption. lia. }
  split.
  { intros Hsn.
    assert (0 <= tropas tA)
      by (exact (proj1 (Forall_lookup _ _) Hsn a tA Ha)).
    assert (0 <= tropas tD)
      by (exact (proj1 (Forall_lookup _ _) Hsn d tD Hd)).
    repeat apply Forall_insert; try assumption; apply Hpos; assumption. }
  split.
  - intros i t' Hi. destruct (decide (i = a)) as [->|Hia].
    + rewrite list_lookup_insert_eq in Hi by dentro_do_mapa.
      injection Hi as <-. eauto.
    + rewrite list_lookup_insert_ne in Hi by congruence.
      destruct (decide (i = d)) as [->|Hid].
      * rewrite list_lookup_insert_eq in Hi by dentro_do_mapa.
        injection Hi as <-. destruct Hdd; eauto.
      * rewrite list_lookup_insert_ne in Hi by congruence. eauto.
  - intros i t Hi Hzero. destruct (decide (i = a)) as [->|Hia].
    + rewrite list_lookup_insert_eq by dentro_do_mapa.
      rewrite Ha in Hi. injection Hi as <-. now rewrite Hpa.
    + rewrite list_lookup_insert_ne by congruence.
      destruct (decide (i = d)) as [->|Hid].
      * rewrite list_lookup_insert_eq by dentro_do_mapa.
        rewrite Hd in Hi. injection Hi as <-. now rewrite Hpd.
      * rewrite list_lookup_insert_ne by congruence. assumption.
Qed.

(** One attack on a well-formed map: it returns, draws no die or two, and
    the map it leaves is well formed and succeeds the old one. *)
Lemma simularAtaque_sucede w a d cj :
  a <> d -> (a < length (mapa w))%nat -> (d < length (mapa w))%nat ->
  mapa_ok (mapa w) ->
  exists m' n ev,
    simularAtaque a d cj w =
    Ret tt {| mapa := m'; rand_seq := rand_seq w;
              rand_pos := (n + rand_pos w)%nat; saida := saida w ++ ev |} /\
    (n = 0%nat \/ n = 2%nat) /\
    sucede (mapa w) m' /\ mapa_ok m' /\
    (forall i, i <> a -> i <> d -> m' !! i = mapa w !! i).
Proof.
  intros Hne Hla Hld Hok.
  destruct (lookup_lt_is_Some_2 _ _ Hla) as [tA Ha].
  destruct (lookup_lt_is_Some_2 _ _ Hld) as [tD Hd].
  assert (Hoka : Territorio_ok tA) by (eapply Forall_lookup_1; eassumption).
  assert (Hokd : Territorio_ok tD) by (eapply Forall_lookup_1; eassumption).
  destruct (simularAtaque_desfecho w a d cj tA tD)
    as (tA' & tD' & n & ev & Hrun & Hdes & Hn);
    auto using Territorio_ok_tropas.
  destruct (desfecho_sucede (mapa w) a d tA tD tA' tD') as [Hsuc Hok'];
    auto.
  exists (<[a := tA']> (<[d := tD']> (mapa w))), n, ev.
  repeat split; try assumption; try apply Hsuc.
  intros i Hia Hid. now rewrite !list_lookup_insert_ne by congruence.
Qed.

(** X2.  An attack of one record of a well-formed map on another returns
    and touches nothing but the two: the map keeps its length and every
    name, every other record is as it was, the stream of [rand()] is the
    same and either no result or two results of it were drawn. *)
Theorem attack_touches_only_the_pair w a d cj :
  a <> d -> (a < length (mapa w))%nat -> (d < length (mapa w))%nat ->
  mapa_ok (mapa w) ->
  exists w',
    simularAtaque a d cj w = Ret tt w' /\
    length (mapa w') = length (mapa w) /\
    nome <$> mapa w' = nome <$> mapa w /\
    (forall i, i <> a -> i <> d -> mapa w' !! i = mapa w !! i) /\
    rand_seq w' = rand_seq w /\
    (rand_pos w' = rand_pos w \/ rand_pos w' = S (S (rand_pos w))).
Proof.
  intros Hne Hla Hld Hok.
  destruct (simularAtaque_sucede w a d cj Hne Hla Hld Hok)
    as (m' & n & ev & Hrun & Hn & (Hl & Hnm & _) & _ & Hfr).
  eexists. split; [exact Hrun |]. simpl.
  repeat split; try assumption. destruct Hn as [-> | ->]; auto.
Qed.

(** The reference map, Amazonas attacking Pantanal. *)
Lemma attack_touches_only_the_pair_witness :
  exists w',
    simularAtaque 0 2 corJogador_main (mundo_de mapa_referencia 3 4)
    = Ret tt w' /\
    length (mapa w') = length mapa_referencia /\
    nome <$> mapa w' = nome <$> mapa_referencia /\
    (forall i, i <> 0%nat -> i <> 2%nat ->
               mapa w' !! i = mapa_referencia !! i) /\
    rand_seq w' = rand_seq (mundo_de mapa_referencia 3 4) /\
    (rand_pos w' = 0%nat \/ rand_pos w' = 2%nat).
Proof.
  apply (attack_touches_only_the_pair
           (mundo_de mapa_referencia 3 4) 0 2 corJogador_main).
  - lia.
  - simpl. lia.
  - simpl. lia.
  - exact mapa_referencia_ok.
Defined.

(** X3.  An attack keeps the map well formed: after it every record still
    has arrays of the declared sizes holding terminated strings and a
    troop count that fits an [int]. *)
Theorem attack_keeps_map_well_formed w a d cj :
  a <> d -> (a < length (mapa w))%nat -> (d < length (mapa w))%nat ->
  mapa_ok (mapa w) ->
  exists w', simularAtaque a d cj w = Ret tt w' /\ mapa_ok (mapa w').
Proof.
  intros Hne Hla Hld Hok.
  destruct (simularAtaque_sucede w a d cj Hne Hla Hld Hok)
    as (m' & n & ev & Hrun & _ & _ & Hok' & _).
  eexists. split; [exact Hrun | exact Hok'].
Qed.

(** A conquest on the reference map lowered to one troop each. *)
Lemma attack_keeps_map_well_formed_witness :
  exists w',
    simularAtaque 1 0 corJogador_main
      (mundo_de [territorio "Amazonas" "Verde" 1;
                 territorio "Cerrado" "Azul" 1] 5 0) = Ret tt w' /\
    mapa_ok (mapa w').
Proof.
  apply (attack_keeps_map_well_formed
           (mundo_de [territorio "Amazonas" "Verde" 1;
                      territorio "Cerrado" "Azul" 1] 5 0)
           1 0 corJogador_main).
  - lia.
  - simpl. lia.
  - simpl. lia.
  - repeat constructor; bem_formado.
Defined.

(** X4.  A territory without troops is out of play: whatever attack is
    made, as attacker, as defender or as a bystander its record is
    afterwards exactly what it was. *)
Theorem territory_without_troops_is_out_of_play w a d cj i t :
  a <> d -> (a < length (mapa w))%nat -> (d < length (mapa w))%nat ->
  mapa_ok (mapa w) ->
  mapa w !! i = Some t -> tropas t <= 0 ->
  exists w', simularAtaque a d cj w = Ret tt w' /\ mapa w' !! i = Some t.
Proof.
  intros Hne Hla Hld Hok Hi Hz.
  destruct (simularAtaque_sucede w a d cj Hne Hla Hld Hok)
    as (m' & n & ev & Hrun & _ & (_ & _ & _ & _ & _ & Hpar) & _).
  eexists. split; [exact Hrun |]. simpl. eauto.
Qed.

(** Cerrado, left without troops by its own conquest, is attacked. *)
Lemma territory_without_troops_is_out_of_play_witness :
  exists w',
    simularAtaque 0 1 corJogador_main
      (mundo_de [territorio "Amazonas" "Azul" 1;
                 territorio "Cerrado" "Azul" 0] 5 0) = Ret tt w' /\
    mapa w' !! 1%nat = Some (territorio "Cerrado" "Azul" 0).
Proof.
  apply (territory_without_troops_is_out_of_play
           (mundo_de [territorio "Amazonas" "Azul" 1;
                      territorio "Cerrado" "Azul" 0] 5 0)
           0 1 corJogador_main 1 (territorio "Cerrado" "Azul" 0)).
  - lia.
  - simpl. lia.
  - simpl. lia.
  - repeat constructor; bem_formado.
  - reflexivity.
  - simpl. lia.
Defined.

(** ** Who owns what *)

Lemma territorios_de_insert cor (m : list Territorio) (i : nat) t t' :
  m !! i = Some t ->
  (territorios_de cor (<[i := t']> m)
   + (if decide (dono t = c_str cor) then 1 else 0)
   = territorios_de cor m
     + (if decide (dono t' = c_str cor) then 1 else 0))%nat.
Proof.
  unfold territorios_de.
  revert i. induction m as [|x m IH]; intros [|i]; simpl;
    try discriminate.
  - intros [= ->]. rewrite !filter_cons.
    repeat case_decide; simpl; lia.
  - intros H. specialize (IH _ H). rewrite !filter_cons.
    repeat case_decide; simpl; lia.
Qed.

(** X5.  A conquest moves exactly one territory from the defender's colour
    to the attacker's: when the two colours differ, the attacker's colour
    owns one territory more, the defender's one less, and every other
    colour as many as before. *)
Theorem conquest_moves_one_territory w a d cj tA tD :
  a <> d -> mapa w !! a = Some tA -> mapa w !! d = Some tD ->
  Territorio_ok tA -> Territorio_ok tD ->
  0 < tropas tA -> tropas tD = 1 ->
  dadoAtaque_de w >= dadoDefesa_de w ->
  dono tD <> dono tA ->
  exists w',
    simularAtaque a d cj w = Ret tt w' /\
    territorios_de (corExercito tA) (mapa w')
    = S (territorios_de (corExercito tA) (mapa w)) /\
    S (territorios_de (corExercito tD) (mapa w'))
    = territorios_de (corExercito tD) (mapa w) /\
    (forall cor, c_str cor <> dono tA -> c_str cor <> dono tD ->
                 territorios_de cor (mapa w') = territorios_de cor (mapa w)).
Proof.
  intros Hne Ha Hd Hoka Hokd Hta Htd Hdados Hcores.
  eexists. split.
  { apply simularAtaque_conquista with (tA := tA) (tD := tD);
      auto using Territorio_ok_tropas; lia. }
  simpl.
  set (tA' := set_tropas tA _). set (tD' := mkTerritorio _ _ _).
  assert (HdA : dono tA' = dono tA) by reflexivity.
  assert (HdD : dono tD' = dono tA)
    by (unfold dono at 1; simpl; now apply Territorio_ok_dono).
  assert (Ha' : <[d := tD']> (mapa w) !! a = Some tA)
    by (rewrite list_lookup_insert_ne by congruence; assumption).
  assert (Hconta : forall cor,
    (territorios_de cor (<[a := tA']> (<[d := tD']> (mapa w)))
     + (if decide (dono tD = c_str cor) then 1 else 0)
     = territorios_de cor (mapa w)
       + (if decide (dono tA = c_str cor) then 1 else 0))%nat).
  { intros cor.
    pose proof (territorios_de_insert cor _ a tA tA' Ha') as H1.
    pose proof (territorios_de_insert cor _ d tD tD' Hd) as H2.
    rewrite HdA in H1. rewrite HdD in H2.
    repeat case_decide; lia. }
  unfold dono in *.
  split; [| split].
  - specialize (Hconta (corExercito tA)).
    rewrite decide_False in Hconta by assumption.
    rewrite decide_True in Hconta by reflexivity. lia.
  - specialize (Hconta (corExercito tD)).
    rewrite decide_True in Hconta by reflexivity.
    rewrite decide_False in Hconta by congruence. lia.
  - intros cor H1 H2. specialize (Hconta cor).
    rewrite !decide_False in Hconta by congruence. lia.
Qed.

(** Scenario A of the specification on a map of two. *)
Lemma conquest_moves_one_territory_witness :
  exists w',
    simularAtaque 0 1 corJogador_main
      (mundo_de [territorio "Amazonas" "Verde" 5;
                 territorio "Caatinga" "Amarelo" 1] 5 0) = Ret tt w' /\
    territorios_de (copiar TAM_COR (lit "Verde")) (mapa w')
    = S (territorios_de (copiar TAM_COR (lit "Verde"))
           [territorio "Amazonas" "Verde" 5;
            territorio "Caatinga" "Amarelo" 1]) /\
    S (territorios_de (copiar TAM_COR (lit "Amarelo")) (mapa w'))
    = territorios_de (copiar TAM_COR (lit "Amarelo"))
        [territorio "Amazonas" "Verde" 5;
         territorio "Caatinga" "Amarelo" 1] /\
    (forall cor,
       c_str cor <> dono (territorio "Amazonas" "Verde" 5) ->
       c_str cor <> dono (territorio "Caatinga" "Amarelo" 1) ->
       territorios_de cor (mapa w')
       = territorios_de cor [territorio "Amazonas" "Verde" 5;
                             territorio "Caatinga" "Amarelo" 1]).
Proof.
  apply (conquest_moves_one_territory
           (mundo_de [territorio "Amazonas" "Verde" 5;
                      territorio "Caatinga" "Amarelo" 1] 5 0)
           0 1 corJogador_main
           (territorio "Amazonas" "Verde" 5)
           (territorio "Caatinga" "Amarelo" 1)).
  - lia.
  - reflexivity.
  - reflexivity.
  - bem_formado.
  - bem_formado.
  - simpl; lia.
  - reflexivity.
  - vm_compute. discriminate.
  - vm_compute. discriminate.
Defined.

(** X6.  Without a conquest no territory changes hands: when the defender
    rolls higher, or has more than one troop, the owners on the map are
    afterwards what they were. *)
Theorem no_conquest_no_change_of_owner w a d cj tA tD :
  mapa w !! a = Some tA -> mapa w !! d = Some tD ->
  CInt.in_range (tropas tD) ->
  dadoAtaque_de w < dadoDefesa_de w \/ 1 < tropas tD ->
  exists w',
    simularAtaque a d cj w = Ret tt w' /\
    dono <$> mapa w' = dono <$> mapa w.
Proof.
  intros Ha Hd Hrd Hcaso.
  destruct (Z_le_gt_dec (tropas tA) 0) as [Hza|Hpa].
  { eexists. split;
      [eapply simularAtaque_atacante_vazio; eassumption | reflexivity]. }
  destruct (Z_le_gt_dec (tropas tD) 0) as [Hzd|Hpd].
  { eexists. split;
      [eapply simularAtaque_defensor_vazio; eassumption || lia
      | reflexivity]. }
  destruct (Z_lt_ge_dec (dadoAtaque_de w) (dadoDefesa_de w)) as [Hdef|Hatq].
  { eexists. split;
      [apply simularAtaque_defesa with (tA := tA) (tD := tD);
       assumption || lia | reflexivity]. }
  destruct Hcaso as [? | Hresta]; [lia |].
  eexists. split;
    [apply simularAtaque_perda with (tA := tA) (tD := tD);
     assumption || lia |].
  simpl. rewrite list_fmap_insert. apply list_insert_id.
  now rewrite list_lookup_fmap, Hd.
Qed.

(** A tie against a defender with two troops. *)
Lemma no_conquest_no_change_of_owner_witness :
  exists w',
    simularAtaque 0 1 corJogador_main
      (mundo_de [territorio "Amazonas" "Verde" 3;
                 territorio "Cerrado" "Azul" 2] 2 2) = Ret tt w' /\
    dono <$> mapa w'
    = dono <$> [territorio "Amazonas" "Verde" 3;
                territorio "Cerrado" "Azul" 2].
Proof.
  apply (no_conquest_no_change_of_owner
           (mundo_de [territorio "Amazonas" "Verde" 3;
                      territorio "Cerrado" "Azul" 2] 2 2)
           0 1 corJogador_main
           (territorio "Amazonas" "Verde" 3)
           (territorio "Cerrado" "Azul" 2)).
  - reflexivity.
  - reflexivity.
  - unfold CInt.in_range, CInt.INT_MIN, CInt.INT_MAX. simpl. lia.
  - right. simpl. lia.
Defined.

(** ** Drawing the mission *)

Lemma c_str_app_terminated a b :
  terminated a = true -> c_str (a ++ b) = c_str a.
Proof.
  unfold terminated. induction a as [|c a IH]; simpl; [discriminate |].
  destruct (is_nul c); simpl; [reflexivity |]. intros H. now rewrite IH.
Qed.

Lemma terminated_app_l a b : terminated a = true -> terminated (a ++ b) = true.
Proof.
  unfold terminated. intros H. rewrite existsb_app, H. reflexivity.
Qed.

Lemma possiveis_sorteada (k : nat) :
  exists c, possiveis !! Z.to_nat (Z.of_nat k mod 5) = Some c.
Proof.
  apply lookup_lt_is_Some_2. simpl.
  pose proof (Z.mod_pos_bound (Z.of_nat k) 5). lia.
Qed.

(** The ten tries: a colour of the table other than the player's, or
    nothing after ten results of [rand()]. *)
Lemma tentar_sorteio_spec cj n : forall w,
  exists e k,
    tentar_sorteio n cj None w = Ret e (apos_sorteios k w) /\
    (k <= n)%nat /\
    match e with
    | Some c => c ∈ possiveis /\ c_str c <> c_str cj /\ (1 <= k)%nat
    | None => k = n
    end.
Proof.
  induction n as [|n IH]; intros w.
  - exists None, 0%nat. split; [destruct w; reflexivity | auto].
  - destruct (possiveis_sorteada (rand_seq w (rand_pos w))) as [c Hc].
    cbn [tentar_sorteio]. unfold bind at 1. unfold rand at 1.
    unfold bind at 1, consultar at 1. rewrite Hc.
    destruct (strcmp c cj =? 0) eqn:Hcmp; cbn [negb].
    + destruct (IH {| mapa := mapa w; rand_seq := rand_seq w;
                      rand_pos := S (rand_pos w); saida := saida w |})
        as (e & k & Hrun & Hk & He).
      exists e, (S k). rewrite Hrun. split.
      * unfold apos_sorteios. simpl. do 2 f_equal. lia.
      * split; [lia |]. destruct e; [intuition lia | lia].
    + exists (Some c), 1%nat. split.
      * destruct n; reflexivity.
      * split; [lia |]. split; [eapply list_elem_of_lookup_2, Hc |].
        split; [| lia].
        apply Z.eqb_neq in Hcmp. now rewrite strcmp_0 in Hcmp.
Qed.

(** The fallback always finds a colour: Verde and Azul cannot both be the
    player's. *)
Lemma primeira_diferente_possiveis cj :
  exists c, primeira_diferente possiveis cj = Some c /\
            c ∈ possiveis /\ c_str c <> c_str cj.
Proof.
  unfold possiveis. cbn [primeira_diferente].
  destruct (strcmp (lit "Verde") cj =? 0) eqn:H1; cbn [negb].
  - destruct (strcmp (lit "Azul") cj =? 0) eqn:H2; cbn [negb].
    + apply Z.eqb_eq, strcmp_0 in H1, H2. rewrite <- H1 in H2.
      discriminate H2.
    + exists (lit "Azul"). split; [reflexivity |].
      split; [now apply list_elem_of_lookup_2 with 1%nat |].
      apply Z.eqb_neq in H2. now rewrite strcmp_0 in H2.
  - exists (lit "Verde"). split; [reflexivity |].
    split; [now apply list_elem_of_lookup_2 with 0%nat |].
    apply Z.eqb_neq in H1. now rewrite strcmp_0 in H1.
Qed.

Lemma gravar_str_exec dst size src w :
  (1 <= size <= length dst)%nat ->
  gravar_str dst size src w = Ret (copiar size src ++ drop size dst) w.
Proof.
  intros H. unfold gravar_str. destruct size as [|k]; [lia |].
  unfold gravar. rewrite length_copiar by lia.
  destruct (Nat.leb_spec (S k) (length dst)); [reflexivity | lia].
Qed.

Lemma snprintf_exec buf size texto w :
  (size <= length buf)%nat ->
  exists escrito,
    snprintf buf size texto w = Ret (escrito ++ drop (length escrito) buf) w /\
    (length escrito <= size)%nat /\
    match size with
    | O => escrito = []
    | S k => escrito = take k texto ++ [NUL]
    end.
Proof.
  intros H. unfold snprintf. destruct size as [|k].
  - exists []. split; [reflexivity | auto].
  - exists (take k texto ++ [NUL]).
    assert (Hl : (length (take k texto ++ [NUL]) <= S k)%nat).
    { rewrite length_app, length_take. simpl. lia. }
    unfold gravar.
    destruct (Nat.leb_spec (length (take k texto ++ [NUL])) (length buf));
      [auto | lia].
Qed.

Lemma tipo_0_ou_1 (k : nat) :
  CInt.rem (Z.of_nat k) 2 = 0 \/ CInt.rem (Z.of_nat k) 2 = 1.
Proof.
  unfold CInt.rem.
  assert (H : 0 <= Z.rem (Z.of_nat k) 2 < 2)
    by (apply Z.rem_bound_pos; lia).
  rewrite wrap_in_range
    by (unfold CInt.in_range, CInt.INT_MIN, CInt.INT_MAX; lia).
  lia.
Qed.

(** All of [sortearMissao], for arrays at least as long as the sizes
    passed. *)
Lemma sortearMissao_spec w descricao descSize alvoMissao alvoSize cj :
  (1 <= alvoSize <= length alvoMissao)%nat ->
  (descSize <= length descricao)%nat ->
  exists tipo src n escrito,
    let alvo := copiar alvoSize src ++ drop alvoSize alvoMissao in
    sortearMissao descricao descSize alvoMissao alvoSize cj w =
    Ret (tipo, escrito ++ drop (length escrito) descricao, alvo)
        (apos_sorteios n w) /\
    (1 <= n <= 11)%nat /\
    (length escrito <= descSize)%nat /\
    match descSize with
    | O => escrito = []
    | S k => escrito = take k (texto_missao tipo alvo) ++ [NUL]
    end /\
    (tipo = 0 /\ src ∈ possiveis /\ c_str src <> c_str cj \/
     tipo = 1 /\ src = lit "3Territorios" /\ n = 1%nat).
Proof.
  intros Halvo Hdesc. unfold sortearMissao.
  unfold bind at 1. unfold rand at 1.
  set (w1 := {| mapa := mapa w; rand_seq := rand_seq w;
                rand_pos := S (rand_pos w); saida := saida w |}).
  destruct (tipo_0_ou_1 (rand_seq w (rand_pos w))) as [-> | ->];
    cbn [Z.eqb].
  - destruct (tentar_sorteio_spec cj 10 w1) as (e & k & Hrun & Hk & He).
    unfold bind at 1. rewrite Hrun.
    assert (Hsrc : exists c,
               match e with
               | Some c => Some c
               | None => primeira_diferente possiveis cj
               end = Some c /\ c ∈ possiveis /\ c_str c <> c_str cj).
    { destruct e as [c|]; [exists c; tauto |].
      apply primeira_diferente_possiveis. }
    destruct Hsrc as (c & -> & Hin & Hdif).
    unfold bind at 1. rewrite gravar_str_exec by assumption.
    destruct (snprintf_exec descricao descSize
                (texto_missao 0 (copiar alvoSize c ++ drop alvoSize alvoMissao))
                (apos_sorteios k w1) Hdesc) as (escrito & Hsn & Hlen & Hesc).
    unfold texto_missao in Hsn at 1. cbn [Z.eqb] in Hsn.
    unfold bind at 1. rewrite Hsn.
    exists 0, c, (S k), escrito. cbn zeta. split.
    + unfold ret, apos_sorteios, w1. simpl. do 2 f_equal. lia.
    + split; [lia |]. split; [assumption |]. split; [assumption | auto].
  - unfold bind at 1. rewrite gravar_str_exec by assumption.
    destruct (snprintf_exec descricao descSize
                (texto_missao 1
                   (copiar alvoSize (lit "3Territorios")
                    ++ drop alvoSize alvoMissao))
                w1 Hdesc) as (escrito & Hsn & Hlen & Hesc).
    unfold texto_missao in Hsn at 1. cbn [Z.eqb] in Hsn.
    unfold bind at 1. rewrite Hsn.
    exists 1, (lit "3Territorios"), 1%nat, escrito. cbn zeta.
    split; [reflexivity |].
    split; [lia |]. split; [assumption |]. split; [assumption | auto].
Qed.

Lemma possiveis_curtas c : c ∈ possiveis -> (length (c_str c) <= 8)%nat.
Proof.
  revert c. apply Forall_forall. unfold possiveis.
  repeat constructor; simpl; lia.
Qed.

Lemma c_str_alvo alvoMissao alvoSize src :
  (length (c_str src) < alvoSize)%nat ->
  c_str (copiar alvoSize src ++ drop alvoSize alvoMissao) = c_str src.
Proof.
  intros H. rewrite c_str_app_terminated by apply terminated_copiar.
  unfold copiar. apply c_str_strncpy. lia.
Qed.

(** X7.  The army to destroy is never the player's own: whatever [rand()]
    gives, also ten times the player's colour in a row, and whatever the
    player's colour is, a mission of kind 0 names one of the five colours
    of the table other than [corJogador]. *)
Theorem mission_target_is_never_the_player
  w descricao descSize alvoMissao alvoSize corJogador :
  (9 <= alvoSize <= length alvoMissao)%nat ->
  (descSize <= length descricao)%nat ->
  exists tipo desc alvo w',
    sortearMissao descricao descSize alvoMissao alvoSize corJogador w
    = Ret (tipo, desc, alvo) w' /\
    (tipo = 0 \/ tipo = 1) /\
    (tipo = 0 ->
     c_str alvo <> c_str corJogador /\
     exists c, c ∈ possiveis /\ c_str alvo = c_str c).
Proof.
  intros Halvo Hdesc.
  destruct (sortearMissao_spec w descricao descSize alvoMissao alvoSize
              corJogador) as (tipo & src & n & escrito & Hrun & _ & _ & _ & Hcaso);
    [lia | assumption |].
  eexists _, _, _, _. split; [exact Hrun |].
  destruct Hcaso as [(-> & Hin & Hdif) | (-> & _ & _)].
  - split; [auto |]. intros _.
    rewrite c_str_alvo by (apply possiveis_curtas in Hin; lia).
    eauto.
  - split; [auto | discriminate].
Qed.

(** The buffers of [main], and [rand()] giving the player's colour ten
    times. *)
Lemma mission_target_is_never_the_player_witness :
  exists tipo desc alvo w',
    sortearMissao (repeat NUL MISS_DESC_TAM) MISS_DESC_TAM
      (repeat NUL TAM_COR) TAM_COR corJogador_main
      (Mundo_inicial (fun k => match k with O => 0 | _ => 1 end)%nat)
    = Ret (tipo, desc, alvo) w' /\
    (tipo = 0 \/ tipo = 1) /\
    (tipo = 0 ->
     c_str alvo <> c_str corJogador_main /\
     exists c, c ∈ possiveis /\ c_str alvo = c_str c).
Proof.
  apply (mission_target_is_never_the_player
           (Mundo_inicial (fun k => match k with O => 0 | _ => 1 end)%nat)
           (repeat NUL MISS_DESC_TAM) MISS_DESC_TAM
           (repeat NUL TAM_COR) TAM_COR corJogador_main).
  - unfold TAM_COR. simpl. lia.
  - unfold MISS_DESC_TAM. simpl. lia.
Defined.

(** X8.  Drawing the mission touches only the dice and its two arrays:
    it returns with the map and the output as they were, having drawn
    between 1 and 11 results of [rand()], and leaves both arrays with
    their lengths, the target terminated and, for [descSize > 0], the
    description terminated. *)
Theorem mission_draw_is_bounded_and_safe
  w descricao descSize alvoMissao alvoSize corJogador :
  (1 <= alvoSize <= length alvoMissao)%nat ->
  (descSize <= length descricao)%nat ->
  exists tipo desc alvo w',
    sortearMissao descricao descSize alvoMissao alvoSize corJogador w
    = Ret (tipo, desc, alvo) w' /\
    mapa w' = mapa w /\ saida w' = saida w /\ rand_seq w' = rand_seq w /\
    (rand_pos w < rand_pos w' <= rand_pos w + 11)%nat /\
    length alvo = length alvoMissao /\
    length desc = length descricao /\
    terminated alvo = true /\
    ((0 < descSize)%nat -> terminated desc = true).
Proof.
  intros Halvo Hdesc.
  destruct (sortearMissao_spec w descricao descSize alvoMissao alvoSize
              corJogador Halvo Hdesc)
    as (tipo & src & n & escrito & Hrun & Hn & Hlen & Hesc & _).
  eexists _, _, _, _. split; [exact Hrun |]. simpl.
  repeat split; try lia.
  - rewrite length_app, length_copiar, length_drop by lia. lia.
  - rewrite length_app, length_drop. lia.
  - apply terminated_app_l, terminated_copiar.
  - intros Hpos. destruct descSize as [|k]; [lia |]. subst escrito.
    apply terminated_app_l. unfold terminated.
    rewrite existsb_app. simpl. apply orb_true_r.
Qed.

(** Arrays of four characters: both texts are cut. *)
Lemma mission_draw_is_bounded_and_safe_witness :
  exists tipo desc alvo w',
    sortearMissao (repeat "x"%char 4) 4 (repeat "x"%char 4) 4
      corJogador_main (Mundo_inicial (fun _ => O))
    = Ret (tipo, desc, alvo) w' /\
    mapa w' = mapa (Mundo_inicial (fun _ => O)) /\
    saida w' = saida (Mundo_inicial (fun _ => O)) /\
    rand_seq w' = rand_seq (Mundo_inicial (fun _ => O)) /\
    (rand_pos (Mundo_inicial (fun _ => O)) < rand_pos w'
     <= rand_pos (Mundo_inicial (fun _ => O)) + 11)%nat /\
    length alvo = length (repeat "x"%char 4) /\
    length desc = length (repeat "x"%char 4) /\
    terminated alvo = true /\
    ((0 < 4)%nat -> terminated desc = true).
Proof.
  apply (mission_draw_is_bounded_and_safe
           (Mundo_inicial (fun _ => O))
           (repeat "x"%char 4) 4 (repeat "x"%char 4) 4 corJogador_main).
  - simpl. lia.
  - simpl. lia.
Defined.

Lemma c_str_sem_nul a b :
  forallb (fun c => negb (is_nul c)) a = true ->
  c_str (a ++ NUL :: b) = a.
Proof.
  induction a as [|c a IH]; simpl; [reflexivity |].
  destruct (is_nul c); simpl; [discriminate |]. intros H. now rewrite IH.
Qed.

Lemma sem_nul_c_str b : forallb (fun c => negb (is_nul c)) (c_str b) = true.
Proof.
  induction b as [|c b IH]; simpl; [reflexivity |].
  destruct (is_nul c) eqn:H; simpl; [reflexivity |]. now rewrite H.
Qed.

Lemma sem_nul_take n a :
  forallb (fun c => negb (is_nul c)) a = true ->
  forallb (fun c => negb (is_nul c)) (take n a) = true.
Proof.
  revert a. induction n as [|n IH]; intros [|c a]; simpl; try reflexivity.
  intros H. apply andb_prop in H as [-> H]. simpl. auto.
Qed.

Lemma sem_nul_texto_missao tipo alvo :
  forallb (fun c => negb (is_nul c)) (texto_missao tipo alvo) = true.
Proof.
  unfold texto_missao. destruct (tipo =? 0); [| reflexivity].
  rewrite forallb_app, sem_nul_c_str. reflexivity.
Qed.

(** X9.  What the two arrays say agrees with the mission id: the
    description holds the text of the mission, with the target as the
    target array now has it, cut to [descSize - 1] characters; and a
    mission of kind 1 costs one result of [rand()] and leaves the mark
    [3Territorios] as target. *)
Theorem mission_description_names_the_target
  w descricao descSize alvoMissao alvoSize corJogador :
  (13 <= alvoSize <= length alvoMissao)%nat ->
  (1 <= descSize <= length descricao)%nat ->
  exists tipo desc alvo w',
    sortearMissao descricao descSize alvoMissao alvoSize corJogador w
    = Ret (tipo, desc, alvo) w' /\
    c_str desc = take (descSize - 1) (texto_missao tipo alvo) /\
    (tipo = 1 ->
     c_str alvo = list_ascii_of_string "3Territorios" /\
     rand_pos w' = S (rand_pos w)).
Proof.
  intros Halvo Hdesc.
  destruct (sortearMissao_spec w descricao descSize alvoMissao alvoSize
              corJogador)
    as (tipo & src & n & escrito & Hrun & Hn & Hlen & Hesc & Hcaso);
    [lia | lia |].
  eexists _, _, _, _. split; [exact Hrun |]. split.
  - destruct descSize as [|k]; [lia |]. subst escrito.
    rewrite <- app_assoc. simpl.
    rewrite c_str_sem_nul by apply sem_nul_take, sem_nul_texto_missao.
    now rewrite Nat.sub_0_r.
  - destruct Hcaso as [(-> & _) | (_ & -> & ->)]; [discriminate |].
    intros _. split; [| reflexivity].
    rewrite c_str_alvo by (simpl; lia). reflexivity.
Qed.

(** The buffers of [main] and a first result of [rand()] that is odd. *)
Lemma mission_description_names_the_target_witness :
  exists tipo desc alvo w',
    sortearMissao (repeat NUL MISS_DESC_TAM) MISS_DESC_TAM
      (repeat NUL TAM_COR) TAM_COR corJogador_main
      (Mundo_inicial (fun _ => 1%nat))
    = Ret (tipo, desc, alvo) w' /\
    c_str desc = take (MISS_DESC_TAM - 1) (texto_missao tipo alvo) /\
    (tipo = 1 ->
     c_str alvo = list_ascii_of_string "3Territorios" /\
     rand_pos w' = 1%nat).
Proof.
  apply (mission_description_names_the_target
           (Mundo_inicial (fun _ => 1%nat))
           (repeat NUL MISS_DESC_TAM) MISS_DESC_TAM
           (repeat NUL TAM_COR) TAM_COR corJogador_main).
  - unfold TAM_COR. simpl. lia.
  - unfold MISS_DESC_TAM. simpl. lia.
Defined.

(** ** The colour index *)

(** X10.  [indiceCorParaANSI] gives the position of a colour in the seed
    table [cores], and -1 exactly for a string that is none of the five;
    so its result is between -1 and 4, and a result that is not negative
    is a valid index of the five entries of [coresANSI]. *)
Theorem color_index_is_table_position cor :
  -1 <= indiceCorParaANSI cor <= 4 /\
  (forall (i : nat) c,
     cores !! i = Some c ->
     (indiceCorParaANSI cor = Z.of_nat i <-> c_str cor = c_str c)) /\
  (indiceCorParaANSI cor = -1 <->
   forall c, c ∈ cores -> c_str cor <> c_str c).
Proof.
  unfold indiceCorParaANSI.
  destruct (strcmp cor (lit "Verde") =? 0) eqn:H0;
    [| destruct (strcmp cor (lit "Azul") =? 0) eqn:H1;
       [| destruct (strcmp cor (lit "Vermelho") =? 0) eqn:H2;
          [| destruct (strcmp cor (lit "Amarelo") =? 0) eqn:H3;
             [| destruct (strcmp cor (lit "Roxo") =? 0) eqn:H4]]]];
    repeat match goal with
           | H : (strcmp _ _ =? 0) = true |- _ =>
               apply Z.eqb_eq, strcmp_0 in H
           | H : (strcmp _ _ =? 0) = false |- _ =>
               apply Z.eqb_neq in H; rewrite strcmp_0 in H
           end;
    (split; [lia |]); split.
  all: try (intros i c Hi;
            do 5 (destruct i as [|i];
                  [injection Hi as <-; split; intros E;
                   first [lia | congruence | reflexivity
                         | rewrite E in *; discriminate] |]);
            discriminate Hi).
  all: split; [try lia | intros Hnone].
  all: try (exfalso;
            first [ apply (Hnone (lit "Verde"));
                    [now apply list_elem_of_lookup_2 with 0%nat | assumption]
                  | apply (Hnone (lit "Azul"));
                    [now apply list_elem_of_lookup_2 with 1%nat | assumption]
                  | apply (Hnone (lit "Vermelho"));
                    [now apply list_elem_of_lookup_2 with 2%nat | assumption]
                  | apply (Hnone (lit "Amarelo"));
                    [now apply list_elem_of_lookup_2 with 3%nat | assumption]
                  | apply (Hnone (lit "Roxo"));
                    [now apply list_elem_of_lookup_2 with 4%nat
                    | assumption] ]).
  - intros _ c Hc. unfold cores in Hc.
    repeat (apply elem_of_cons in Hc as [-> | Hc]; [assumption |]).
    now apply elem_of_nil in Hc.
  - reflexivity.
Qed.

(** ** Filling the map again *)

Ltac abrir_bloco m k :=
  lazymatch k with
  | O => idtac
  | S ?k' => destruct m as [|? m]; [simpl in *; lia | abrir_bloco m k']
  end.

Ltac bloco_curto m k :=
  lazymatch k with
  | O => simpl in *; lia
  | S ?k' => destruct m as [|? m]; [reflexivity | bloco_curto m k']
  end.

(** X11.  [inicializarTerritorios] for up to five territories overwrites
    whatever the block held: the first [total] records become the rows of
    the seed tables, with nothing left of their old contents, and the
    records after them are not touched.  On a block of fewer than [total]
    records it writes past the end. *)
Theorem initialization_overwrites_the_block w (m : list Territorio) total :
  (total <= TOTAL_TERRITORIOS)%nat ->
  ((total <= length m)%nat ->
   inicializarTerritorios 0 total (com_mapa w m)
   = Ret tt (com_mapa w (take total mapa_referencia ++ drop total m))) /\
  ((length m < total)%nat ->
   inicializarTerritorios 0 total (com_mapa w m) = Indefinido).
Proof.
  unfold TOTAL_TERRITORIOS. intros H5. split; intros Hlen.
  - destruct total as [|[|[|[|[|[|total]]]]]]; [| | | | | | lia].
    + reflexivity.
    + abrir_bloco m 1%nat. reflexivity.
    + abrir_bloco m 2%nat. reflexivity.
    + abrir_bloco m 3%nat. reflexivity.
    + abrir_bloco m 4%nat. reflexivity.
    + abrir_bloco m 5%nat. reflexivity.
  - destruct total as [|[|[|[|[|[|total]]]]]]; [| | | | | | lia].
    + simpl in Hlen. lia.
    + bloco_curto m 1%nat.
    + bloco_curto m 2%nat.
    + bloco_curto m 3%nat.
    + bloco_curto m 4%nat.
    + bloco_curto m 5%nat.
Qed.

(** Filling three records of a map that was played on. *)
Lemma initialization_overwrites_the_block_witness :
  ((3 <= length mapa_tres_azuis)%nat ->
   inicializarTerritorios 0 3 (com_mapa (Mundo_inicial (fun _ => O))
                                 mapa_tres_azuis)
   = Ret tt (com_mapa (Mundo_inicial (fun _ => O))
               (take 3 mapa_referencia ++ drop 3 mapa_tres_azuis))) /\
  ((length mapa_tres_azuis < 3)%nat ->
   inicializarTerritorios 0 3 (com_mapa (Mundo_inicial (fun _ => O))
                                 mapa_tres_azuis)
   = Indefinido).
Proof.
  apply (initialization_overwrites_the_block
           (Mundo_inicial (fun _ => O)) mapa_tres_azuis 3).
  unfold TOTAL_TERRITORIOS. lia.
Defined.

(** ** The start of the game *)

(** X12.  The game is never won before the first move: after the setup
    of [main], whatever mission [sortearMissao] draws from whatever
    [rand()] gives, [verificarVitoria] answers 0 on the fresh map. *)
Theorem game_is_not_won_at_the_start seq :
  exists w0 tipo desc alvo w1,
    preparar TOTAL_TERRITORIOS true (Mundo_inicial seq) = Some (Ret tt w0) /\
    sortearMissao (repeat NUL MISS_DESC_TAM) MISS_DESC_TAM
      (repeat NUL TAM_COR) TAM_COR corJogador_main w0
    = Ret (tipo, desc, alvo) w1 /\
    verificarVitoria 0 TOTAL_TERRITORIOS tipo alvo corJogador_main w1
    = Ret 0 w1.
Proof.
  set (w0 := com_mapa (Mundo_inicial seq) mapa_referencia).
  destruct (sortearMissao_spec w0 (repeat NUL MISS_DESC_TAM) MISS_DESC_TAM
              (repeat NUL TAM_COR) TAM_COR corJogador_main)
    as (tipo & src & n & escrito & Hrun & _ & _ & _ & Hcaso);
    [unfold TAM_COR; simpl; lia | unfold MISS_DESC_TAM; simpl; lia |].
  exists w0. eexists _, _, _, _. split; [reflexivity |].
  split; [exact Hrun |].
  destruct Hcaso as [(-> & Hin & Hdif) | (-> & -> & _)].
  - unfold possiveis in Hin.
    repeat (apply elem_of_cons in Hin as [-> | Hin];
            [first [reflexivity | exfalso; now apply Hdif] |]).
    now apply elem_of_nil in Hin.
  - reflexivity.
Qed.

(** ** A program logic for the session *)

Section LogicaJ.

Context {A B : Type}.
Implicit Types (s : Sessao).

Lemma wpJ_ret (a : A) s (Q : A -> Sessao -> Prop) : Q a s -> wpJ (retJ a) s Q.
Proof. exact id. Qed.

Lemma wpJ_bind (m : J A) (k : A -> J B) s (Q : B -> Sessao -> Prop) :
  wpJ m s (fun a s' => wpJ (k a) s' Q) -> wpJ (bindJ m k) s Q.
Proof. unfold wpJ, bindJ. now destruct (m s). Qed.

Lemma wpJ_mono (m : J A) s (Q Q' : A -> Sessao -> Prop) :
  wpJ m s Q -> (forall a s', Q a s' -> Q' a s') -> wpJ m s Q'.
Proof. unfold wpJ. destruct (m s); auto. Qed.

Lemma wpJ_RetJ (m : J A) s (Q : A -> Sessao -> Prop) a s' :
  wpJ m s Q -> m s = RetJ a s' -> Q a s'.
Proof. unfold wpJ. intros H E. now rewrite E in H. Qed.

Lemma bindJ_RetJ (m : J A) (k : A -> J B) s a s' :
  m s = RetJ a s' -> bindJ m k s = k a s'.
Proof. unfold bindJ. now intros ->. Qed.

End LogicaJ.

Lemma segue_refl s : mapa_ok (mapa (mundo s)) -> segue s s.
Proof. intros H. repeat split; auto using sucede_refl; apply sucede_refl. Qed.

Lemma segue_trans s1 s2 s3 : segue s1 s2 -> segue s2 s3 -> segue s1 s3.
Proof.
  intros (Hs & _ & Hq & Hp) (Hs' & Hok & Hq' & Hp').
  split; [eapply sucede_trans; eassumption |].
  split; [assumption |]. split; [congruence | lia].
Qed.

Lemma segue_em_ordem n s s' : em_ordem n s -> segue s s' -> em_ordem n s'.
Proof.
  intros [_ Hn] ((Hl & _) & Hok & _). split; [assumption | lia].
Qed.

Lemma segue_mesmo_mundo s s' :
  mapa_ok (mapa (mundo s)) -> limpo (mundo s') = limpo (mundo s) ->
  segue s s'.
Proof.
  intros Hok E.
  assert (Hm : mapa (mundo s') = mapa (mundo s))
    by exact (f_equal mapa E).
  assert (Hq : rand_seq (mundo s') = rand_seq (mundo s))
    by exact (f_equal rand_seq E).
  assert (Hp : rand_pos (mundo s') = rand_pos (mundo s))
    by exact (f_equal rand_pos E).
  unfold segue. rewrite Hm, Hq, Hp.
  repeat split; auto using sucede_refl; apply sucede_refl.
Qed.

(** What does not touch the world conserves. *)
Lemma conserva_mundo {A} n (m : J A) :
  (forall s a s', m s = RetJ a s' -> limpo (mundo s') = limpo (mundo s)) ->
  conserva n m.
Proof.
  intros H s [Hok _]. unfold wpJ. destruct (m s) as [a s'|] eqn:E; [| exact I].
  apply H in E. now apply segue_mesmo_mundo.
Qed.

Lemma conserva_ret {A} n (a : A) : conserva n (retJ a).
Proof. apply conserva_mundo. unfold retJ. now intros s ? ? [= _ <-]. Qed.

Lemma conserva_bind {A B} n (m : J A) (k : A -> J B) :
  conserva n m -> (forall a, conserva n (k a)) -> conserva n (bindJ m k).
Proof.
  intros Hm Hk s Hs. apply wpJ_bind.
  eapply wpJ_mono; [apply Hm, Hs |].
  intros a s1 Hseg. cbn beta in *.
  eapply wpJ_mono; [apply Hk; eapply segue_em_ordem; eassumption |].
  intros b s2 Hseg2. cbn beta in *. eapply segue_trans; eassumption.
Qed.

Lemma conserva_mostrar n t : conserva n (mostrar t).
Proof. apply conserva_mundo. unfold mostrar. now intros s ? ? [= _ <-]. Qed.

Lemma conserva_limparBufferEntrada n : conserva n limparBufferEntrada.
Proof.
  apply conserva_mundo. unfold limparBufferEntrada.
  now intros s ? ? [= _ <-].
Qed.

Lemma conserva_getchar n : conserva n getchar.
Proof.
  apply conserva_mundo. intros s a s'. unfold getchar.
  destruct (stdin s); now intros [= _ <-].
Qed.

Lemma conserva_scanf_d n : conserva n scanf_d.
Proof.
  apply conserva_mundo. intros s a s'. unfold scanf_d.
  destruct (ler_int (stdin s)) as [[r resto]|]; [| discriminate].
  now intros [= _ <-].
Qed.

Lemma conserva_consultarJ {A} n (tab : list A) i : conserva n (consultarJ tab i).
Proof.
  apply conserva_mundo. intros s a s'. unfold consultarJ.
  destruct (tab !! i); [| discriminate]. now intros [= _ <-].
Qed.

(** A function of the first part that returns the world it was given. *)
Lemma conserva_subir_leitura {A} n (m : M A) :
  (forall w a w', m w = Ret a w' -> w' = w) -> conserva n (subir m).
Proof.
  intros H. apply conserva_mundo. intros s a s'. unfold subir.
  destruct (m (limpo (mundo s))) as [a' w'|] eqn:E; [| discriminate].
  apply H in E. subst w'. now intros [= _ <-].
Qed.

(** ** What the game keeps *)

Lemma procurar_exercito_pura alvo p n : forall i w r w',
  procurar_exercito n p i alvo w = Ret r w' -> w' = w /\ (r = 0 \/ r = 1).
Proof.
  induction n as [|n IH]; intros i w r w'; simpl.
  - unfold ret. intros [= <- <-]. auto.
  - unfold bind, ler. destruct (mapa w !! (p + i)%nat) as [t|]; [| discriminate].
    destruct ((strcmp (corExercito t) alvo =? 0) && (tropas t >? 0)).
    + unfold ret. intros [= <- <-]. auto.
    + apply IH.
Qed.

Lemma contar_do_jogador_pura cj p n : forall i c w r w',
  contar_do_jogador n p i cj c w = Ret r w' -> w' = w.
Proof.
  induction n as [|n IH]; intros i c w r w'; simpl.
  - unfold ret. now intros [= _ <-].
  - unfold bind, ler. destruct (mapa w !! (p + i)%nat) as [t|]; [| discriminate].
    apply IH.
Qed.

(** Whenever [verificarVitoria] returns, it returns 0 or 1 and the world
    it was given. *)
Lemma verificarVitoria_pura p total id alvo cj w r w' :
  verificarVitoria p total id alvo cj w = Ret r w' ->
  w' = w /\ (r = 0 \/ r = 1).
Proof.
  unfold verificarVitoria.
  destruct (id =? 0); [apply procurar_exercito_pura |].
  destruct (id =? 1).
  - unfold bind.
    destruct (contar_do_jogador total p 0 cj 0 w) as [c w1|] eqn:E;
      [| discriminate].
    apply contar_do_jogador_pura in E. subst w1. unfold ret.
    intros [= <- <-]. destruct (c >=? 3); auto.
  - unfold ret. intros [= <- <-]. auto.
Qed.

Lemma conserva_atacar_escolhidos n total atk def cj :
  (total <= n)%nat -> Z.of_nat total <= CInt.INT_MAX ->
  conserva n (subir (atacar_escolhidos 0 total atk def cj)).
Proof.
  intros Htot Hmax s [Hok Hn]. unfold wpJ, subir.
  destruct (atacar_escolhidos_casos 0 total atk def cj (limpo (mundo s)) Hmax)
    as [-> | (a & d & Hne & Ha & Hd & ->)].
  - simpl. now apply segue_mesmo_mundo.
  - destruct (simularAtaque_sucede (limpo (mundo s)) (0 + a) (0 + d) cj)
      as (m' & k & ev & -> & Hk & Hsuc & Hok' & _);
      simpl; try lia; try assumption.
    repeat split; try apply Hsuc; try assumption. simpl. lia.
Qed.

(** Composition of what conserves, piece by piece. *)
Ltac conservar :=
  repeat match goal with
    | |- conserva _ (retJ _) => apply conserva_ret
    | |- conserva _ (mostrar _) => apply conserva_mostrar
    | |- conserva _ limparBufferEntrada => apply conserva_limparBufferEntrada
    | |- conserva _ getchar => apply conserva_getchar
    | |- conserva _ scanf_d => apply conserva_scanf_d
    | |- conserva _ (consultarJ _ _) => apply conserva_consultarJ
    | |- conserva _ (bindJ _ _) => apply conserva_bind; [| intros ?]
    | |- conserva _ (match ?x with _ => _ end) => destruct x
    end.

Lemma conserva_paraJ n corpo :
  (forall i, conserva n (corpo i)) ->
  forall k i, conserva n (paraJ k i corpo).
Proof.
  intros H. induction k as [|k IH]; intros i; simpl; conservar; auto.
Qed.

Lemma conserva_ler n p : conserva n (subir (ler p)).
Proof.
  apply conserva_subir_leitura. intros w a w'. unfold ler.
  destruct (mapa w !! p); [| discriminate]. now intros [= _ <-].
Qed.

Lemma conserva_exibirMapa n p total : conserva n (exibirMapa p total).
Proof.
  unfold exibirMapa. conservar.
  apply conserva_paraJ. intros i. apply conserva_bind; [apply conserva_ler |].
  intros t. conservar.
Qed.

Lemma conserva_exibirMissao n id alvo : conserva n (exibirMissao id alvo).
Proof. unfold exibirMissao. conservar. Qed.

Lemma conserva_exibirMenuPrincipal n : conserva n exibirMenuPrincipal.
Proof. unfold exibirMenuPrincipal. conservar. Qed.

Lemma conserva_rodada n total cj i nAtaques :
  (total <= n)%nat -> Z.of_nat total <= CInt.INT_MAX ->
  conserva n (rodada 0 total cj i nAtaques).
Proof.
  intros Htot Hmax. unfold rodada. conservar.
  now apply conserva_atacar_escolhidos.
Qed.

Lemma conserva_rodadas n total cj nAtaques k :
  (total <= n)%nat -> Z.of_nat total <= CInt.INT_MAX ->
  forall i, conserva n (rodadas k 0 total cj i nAtaques).
Proof.
  intros Htot Hmax. induction k as [|k IH]; intros i; simpl; conservar.
  - now apply conserva_rodada.
  - apply IH.
Qed.

Lemma conserva_faseDeAtaque n total cj :
  (total <= n)%nat -> Z.of_nat total <= CInt.INT_MAX ->
  conserva n (faseDeAtaque 0 total cj).
Proof.
  intros Htot Hmax. unfold faseDeAtaque. conservar.
  now apply conserva_rodadas.
Qed.

Lemma conserva_verificarVitoria n p total id alvo cj :
  conserva n (subir (verificarVitoria p total id alvo cj)).
Proof.
  apply conserva_subir_leitura. intros w a w' H.
  now apply verificarVitoria_pura in H.
Qed.

Lemma TOTAL_TERRITORIOS_int : Z.of_nat TOTAL_TERRITORIOS <= CInt.INT_MAX.
Proof. unfold TOTAL_TERRITORIOS, CInt.INT_MAX. simpl. lia. Qed.

Lemma conserva_turno id alvo desc cj venceu :
  conserva TOTAL_TERRITORIOS (turno id alvo desc cj venceu).
Proof.
  unfold turno.
  apply conserva_bind; [apply conserva_exibirMapa | intros _].
  apply conserva_bind; [apply conserva_exibirMissao | intros _].
  apply conserva_bind; [apply conserva_exibirMenuPrincipal | intros _].
  apply conserva_bind; [apply conserva_scanf_d | intros r].
  apply conserva_bind; [conservar | intros opcao].
  apply conserva_bind; [conservar | intros _].
  apply conserva_bind; [| intros v; conservar].
  destruct (opcao =? 1).
  { apply conserva_bind; [| intros; conservar].
    apply conserva_faseDeAtaque; [lia | apply TOTAL_TERRITORIOS_int]. }
  destruct (opcao =? 2); [| conservar].
  apply conserva_bind; [apply conserva_verificarVitoria | intros v].
  conservar.
Qed.

Lemma conserva_laco id alvo desc cj turnos : forall venceu,
  conserva TOTAL_TERRITORIOS (laco turnos id alvo desc cj venceu).
Proof.
  induction turnos as [|turnos IH]; intros venceu; simpl; conservar.
  - apply conserva_turno.
  - apply IH.
Qed.



Lemma limpo_limpo w : limpo (limpo w) = limpo w.
Proof. reflexivity. Qed.

(** Running on after a piece that conserves. *)
Lemma wpJ_apos_conserva {A B} n (m : J A) (k : A -> J B) s0 s
  (Q : B -> Sessao -> Prop) :
  conserva n m -> em_ordem n s -> segue s0 s ->
  (forall a s', em_ordem n s' -> segue s0 s' -> wpJ (k a) s' Q) ->
  wpJ (bindJ m k) s Q.
Proof.
  intros Hm Hs H0 Hk. apply wpJ_bind.
  eapply wpJ_mono; [exact (Hm s Hs) |].
  intros a s' Hseg. cbn beta in *.
  apply Hk; [eapply segue_em_ordem | eapply segue_trans]; eassumption.
Qed.

Ltac depois_de H :=
  eapply (wpJ_apos_conserva TOTAL_TERRITORIOS);
    [H | eassumption | eassumption |];
  let a := fresh "a" in
  let s' := fresh "s" in
  let Hs := fresh "Hs" in
  let Hseg := fresh "Hseg" in
  intros a s' Hs Hseg.

(** The end of a turn in which [venceu] stayed 0. *)
Lemma fim_de_turno_spec id alvo cj (opcao : Z) (b : bool) s0 s :
  em_ordem TOTAL_TERRITORIOS s -> segue s0 s ->
  wpJ ((if (0 =? 0) && b
        then mostrar PressioneEnter ~;; _ <~ getchar ;; retJ tt
        else retJ tt) ~;;
       retJ (opcao, 0)) s
    (fun ov s' =>
       segue s0 s' /\
       (snd ov = 0 \/ snd ov = 1 /\ missao_cumprida id alvo cj s')).
Proof.
  intros Hs H0.
  depois_de ltac:(conservar).
  apply wpJ_ret. auto.
Qed.

(** One turn of the game: the session follows, and [venceu] is set only
    on a fulfilled mission. *)
Lemma turno_spec id alvo desc cj s0 s :
  em_ordem TOTAL_TERRITORIOS s -> segue s0 s ->
  wpJ (turno id alvo desc cj 0) s
    (fun ov s' =>
       segue s0 s' /\
       (snd ov = 0 \/ snd ov = 1 /\ missao_cumprida id alvo cj s')).
Proof.
  intros Hs H0. unfold turno.
  depois_de ltac:(apply conserva_exibirMapa).
  depois_de ltac:(apply conserva_exibirMissao).
  depois_de ltac:(apply conserva_exibirMenuPrincipal).
  depois_de ltac:(apply conserva_scanf_d).
  depois_de ltac:(conservar).
  depois_de ltac:(conservar).
  rename a3 into opcao.
  apply wpJ_bind.
  destruct (opcao =? 1).
  { depois_de ltac:(apply conserva_faseDeAtaque;
                    [lia | apply TOTAL_TERRITORIOS_int]).
    apply wpJ_ret. now apply fim_de_turno_spec. }
  destruct (opcao =? 2).
  2:{ destruct (opcao =? 0);
        (depois_de ltac:(conservar); apply wpJ_ret;
         now apply fim_de_turno_spec). }
  apply wpJ_bind. unfold wpJ at 1, subir.
  destruct (verificarVitoria 0 TOTAL_TERRITORIOS id alvo cj (limpo (mundo s6)))
    as [v w'|] eqn:E; [| exact I].
  destruct (verificarVitoria_pura _ _ _ _ _ _ _ _ E) as [-> Hv].
  set (s7 := mkSessao _ _ _).
  assert (H67 : segue s6 s7)
    by (apply segue_mesmo_mundo; [apply Hs5 | reflexivity]).
  assert (Hs7 : em_ordem TOTAL_TERRITORIOS s7)
    by (eapply segue_em_ordem; eassumption).
  assert (H07 : segue s0 s7) by (eapply segue_trans; eassumption).
  destruct Hv as [-> | ->]; cbn [Z.eqb negb].
  - depois_de ltac:(conservar). apply wpJ_ret.
    now apply fim_de_turno_spec.
  - unfold wpJ. cbn. split.
    + eapply segue_trans; [exact H07 |].
      apply segue_mesmo_mundo; [apply Hs7 | reflexivity].
    + right. split; [reflexivity |]. exact E.
Qed.

(** The loop of the game: at every stop the session follows the first
    one, and the loop ends with [venceu] set only on a fulfilled
    mission. *)
Lemma laco_spec id alvo desc cj turnos : forall s0 s,
  em_ordem TOTAL_TERRITORIOS s -> segue s0 s ->
  wpJ (laco turnos id alvo desc cj 0) s
    (fun r s' =>
       segue s0 s' /\
       match r with
       | Some v => v = 0 \/ v = 1 /\ missao_cumprida id alvo cj s'
       | None => True
       end).
Proof.
  induction turnos as [|turnos IH]; intros s0 s Hs H0; simpl.
  - apply wpJ_ret. auto.
  - apply wpJ_bind.
    eapply wpJ_mono; [apply turno_spec; eassumption |].
    intros [opcao v] s1 [H1 Hv]. cbn beta iota in *. simpl in Hv.
    assert (Hs1 : em_ordem TOTAL_TERRITORIOS s1).
    { destruct Hs as [_ Hn]. destruct H0 as ((Hl0 & _) & _).
      destruct H1 as ((Hl & _) & Hok & _). split; [assumption | lia]. }
    destruct (negb (opcao =? 0) && (v =? 0)) eqn:Hcont.
    + apply andb_prop in Hcont as [_ Hv0]. apply Z.eqb_eq in Hv0. subst v.
      now apply IH.
    + apply wpJ_ret. auto.
Qed.

(** X14.  The whole game keeps the map in order: from a well-formed map
    of five territories or more, wherever the loop of [main] stops, at
    its end or after any number of turns, whatever was typed and whatever
    the dice gave, the map is well formed and succeeds the first one
    (same territories and names, no more troops in all, no new negative
    count or colour, territories without troops untouched), and the
    stream of [rand()] is the same. *)
Theorem game_keeps_the_map_in_order
  turnos id alvo desc cj s r s' :
  mapa_ok (mapa (mundo s)) ->
  (TOTAL_TERRITORIOS <= length (mapa (mundo s)))%nat ->
  laco turnos id alvo desc cj 0 s = RetJ r s' ->
  sucede (mapa (mundo s)) (mapa (mundo s')) /\
  mapa_ok (mapa (mundo s')) /\
  rand_seq (mundo s') = rand_seq (mundo s).
Proof.
  intros Hok Hlen Hrun.
  pose proof (laco_spec id alvo desc cj turnos s s (conj Hok Hlen)
                (segue_refl s Hok)) as H.
  apply (wpJ_RetJ _ _ _ _ _ H) in Hrun.
  destruct Hrun as ((? & ? & ? & _) & _). auto.
Qed.

(** A game of three turns: an attack of 1 on 4, a look at the mission,
    and the way out. *)
Lemma game_keeps_the_map_in_order_witness :
  sucede mapa_referencia
    (mapa (mundo (sessao_final
                    (laco 3 1 (lit "3Territorios") (lit "Conquistar")
                       corJogador_main 0)
                    (sessao_de mapa_referencia 5 0
                       ["1"; "1"; "1"; "4"; ""; "2"; ""; "0"]%string)))) /\
  mapa_ok
    (mapa (mundo (sessao_final
                    (laco 3 1 (lit "3Territorios") (lit "Conquistar")
                       corJogador_main 0)
                    (sessao_de mapa_referencia 5 0
                       ["1"; "1"; "1"; "4"; ""; "2"; ""; "0"]%string)))) /\
  rand_seq
    (mundo (sessao_final
              (laco 3 1 (lit "3Territorios") (lit "Conquistar")
                 corJogador_main 0)
              (sessao_de mapa_referencia 5 0
                 ["1"; "1"; "1"; "4"; ""; "2"; ""; "0"]%string)))
  = rand_seq (mundo_de mapa_referencia 5 0).
Proof.
  apply (game_keeps_the_map_in_order
           3 1 (lit "3Territorios") (lit "Conquistar") corJogador_main
           (sessao_de mapa_referencia 5 0
              ["1"; "1"; "1"; "4"; ""; "2"; ""; "0"]%string)
           (Some 0)).
  - exact mapa_referencia_ok.
  - unfold TOTAL_TERRITORIOS. simpl. lia.
  - vm_compute. reflexivity.
Defined.

(** X15.  The game declares victory only on a fulfilled mission: when the
    loop of [main] ends, [venceu] is 0 or 1, and it is 1 only if
    [verificarVitoria] answers 1 on the map the game ends with. *)
Theorem victory_only_on_a_fulfilled_mission
  turnos id alvo desc cj s v s' :
  mapa_ok (mapa (mundo s)) ->
  (TOTAL_TERRITORIOS <= length (mapa (mundo s)))%nat ->
  laco turnos id alvo desc cj 0 s = RetJ (Some v) s' ->
  (v = 0 \/ v = 1) /\
  (v <> 0 -> missao_cumprida id alvo cj s').
Proof.
  intros Hok Hlen Hrun.
  pose proof (laco_spec id alvo desc cj turnos s s (conj Hok Hlen)
                (segue_refl s Hok)) as H.
  apply (wpJ_RetJ _ _ _ _ _ H) in Hrun.
  destruct Hrun as (_ & [-> | [-> Hm]]); split; auto; congruence.
Qed.

(** The player owns three territories and asks for the mission to be
    checked. *)
Lemma victory_only_on_a_fulfilled_mission_witness :
  (1 = 0 \/ 1 = 1) /\
  (1 <> 0 ->
   missao_cumprida 1 (lit "3Territorios") corJogador_main
     (sessao_final
        (laco 2 1 (lit "3Territorios") (lit "Conquistar") corJogador_main 0)
        (sessao_de mapa_tres_azuis 0 0 ["2"]%string))).
Proof.
  apply (victory_only_on_a_fulfilled_mission
           2 1 (lit "3Territorios") (lit "Conquistar") corJogador_main
           (sessao_de mapa_tres_azuis 0 0 ["2"]%string)
           1).
  - repeat constructor; bem_formado.
  - unfold TOTAL_TERRITORIOS. simpl. lia.
  - vm_compute. reflexivity.
Defined.

(** ** The screens *)

Lemma mesma_situacao_refl s : mesma_situacao s s.
Proof. split; reflexivity. Qed.

Lemma mesma_situacao_trans s1 s2 s3 :
  mesma_situacao s1 s2 -> mesma_situacao s2 s3 -> mesma_situacao s1 s3.
Proof. intros [H1 H2] [H3 H4]. split; congruence. Qed.

Lemma indiceCorParaANSI_range cor : -1 <= indiceCorParaANSI cor <= 4.
Proof.
  unfold indiceCorParaANSI.
  repeat match goal with
         | |- context [if ?b then _ else _] => destruct b
         end; lia.
Qed.

(** One line of the table. *)
Lemma linha_do_mapa p i s :
  (p + i < length (mapa (mundo s)))%nat ->
  exists s' l,
    (t <~ subir (ler (p + i)) ;;
     let idxCor := indiceCorParaANSI (corExercito t) in
     if idxCor >=? 0 then
       ansi <~ consultarJ coresANSI (Z.to_nat idxCor) ;;
       mostrar (MapaLinhaColorida (i + 1) (c_str (nome t)) (c_str ansi)
                  (c_str (corExercito t)) (c_str resetANSI) (tropas t))
     else
       mostrar (MapaLinha (i + 1) (c_str (nome t)) (c_str (corExercito t))
                  (tropas t))) s = RetJ tt s' /\
    mesma_situacao s s' /\ tela s' = tela s ++ [l].
Proof.
  intros Hi. destruct (lookup_lt_is_Some_2 _ _ Hi) as [t Ht].
  unfold bindJ at 1, subir, ler. cbn [limpo mapa]. rewrite Ht.
  cbn [saida limpo fmap list_fmap]. cbn zeta.
  pose proof (indiceCorParaANSI_range (corExercito t)) as Hr.
  destruct (Z.geb_spec (indiceCorParaANSI (corExercito t)) 0) as [Hpos|Hneg].
  - destruct (lookup_lt_is_Some_2 coresANSI
                (Z.to_nat (indiceCorParaANSI (corExercito t))))
      as [ansi Hansi]; [simpl; lia |].
    unfold bindJ, consultarJ. rewrite Hansi. unfold mostrar. cbn.
    eexists _, _. split; [reflexivity |].
    split; [split; reflexivity |]. now rewrite app_nil_r.
  - unfold mostrar. cbn.
    eexists _, _. split; [reflexivity |].
    split; [split; reflexivity |]. now rewrite app_nil_r.
Qed.

Lemma linhas_do_mapa p k : forall i s,
  (p + i + k <= length (mapa (mundo s)))%nat ->
  exists s' ls,
    paraJ k i (fun i =>
      t <~ subir (ler (p + i)) ;;
      let idxCor := indiceCorParaANSI (corExercito t) in
      if idxCor >=? 0 then
        ansi <~ consultarJ coresANSI (Z.to_nat idxCor) ;;
        mostrar (MapaLinhaColorida (i + 1) (c_str (nome t)) (c_str ansi)
                   (c_str (corExercito t)) (c_str resetANSI) (tropas t))
      else
        mostrar (MapaLinha (i + 1) (c_str (nome t)) (c_str (corExercito t))
                   (tropas t))) s = RetJ tt s' /\
    mesma_situacao s s' /\ tela s' = tela s ++ ls /\ length ls = k.
Proof.
  induction k as [|k IH]; intros i s Hlen.
  - exists s, []. split; [reflexivity |].
    split; [apply mesma_situacao_refl |]. now rewrite app_nil_r.
  - destruct (linha_do_mapa p i s) as (s1 & l & Hrun & Hsit & Htela);
      [lia |].
    cbn [paraJ]. rewrite (bindJ_RetJ _ _ _ _ _ Hrun).
    assert (Hm : mapa (mundo s1) = mapa (mundo s))
      by exact (f_equal mapa (proj1 Hsit)).
    destruct (IH (S i) s1) as (s2 & ls & Hrun2 & Hsit2 & Htela2 & Hls);
      [rewrite Hm; lia |].
    exists s2, (l :: ls). split; [exact Hrun2 |].
    split; [eapply mesma_situacao_trans; eassumption |].
    split; [| simpl; lia].
    rewrite Htela2, Htela, <- app_assoc. reflexivity.
Qed.

(** X16.  [exibirMapa] is safe and only looks: on a block of [total]
    records or more, whatever strings and numbers the records hold, it
    returns, having printed the three lines of the heading, one line for
    each territory and the closing line; the map, the dice and the input
    are as they were. *)
Theorem map_display_is_safe_and_reads_only p total s :
  (p + total <= length (mapa (mundo s)))%nat ->
  exists s' ls,
    exibirMapa p total s = RetJ tt s' /\
    mesma_situacao s s' /\
    tela s' = tela s ++ [MapaTitulo; MapaCabecalho; MapaRegua]
                     ++ ls ++ [LinhaVazia] /\
    length ls = total.
Proof.
  intros Hlen. unfold exibirMapa.
  set (s1 := {| mundo := mundo s; stdin := stdin s;
                tela := ((tela s ++ [MapaTitulo]) ++ [MapaCabecalho])
                        ++ [MapaRegua] |}).
  destruct (linhas_do_mapa p total 0 s1) as (s2 & ls & Hrun & Hsit & Htela & Hls);
    [simpl; lia |].
  exists {| mundo := mundo s2; stdin := stdin s2;
            tela := tela s2 ++ [LinhaVazia] |}, ls.
  split.
  - unfold bindJ at 1 2 3. unfold mostrar at 1 2 3. cbn [mundo stdin tela].
    fold s1. rewrite (bindJ_RetJ _ _ _ _ _ Hrun). reflexivity.
  - split; [exact Hsit |]. split; [| exact Hls].
    cbn [tela]. rewrite Htela. unfold s1. cbn [tela].
    rewrite <- !app_assoc. reflexivity.
Qed.

(** A map whose second record holds a colour that is none of the five. *)
Lemma map_display_is_safe_and_reads_only_witness :
  exists s' ls,
    exibirMapa 0 2
      (sessao_de [territorio "Amazonas" "Verde" 5;
                  territorio "Cerrado" "Cinza" (-3)] 0 0 []) = RetJ tt s' /\
    mesma_situacao
      (sessao_de [territorio "Amazonas" "Verde" 5;
                  territorio "Cerrado" "Cinza" (-3)] 0 0 []) s' /\
    tela s' = [] ++ [MapaTitulo; MapaCabecalho; MapaRegua]
                 ++ ls ++ [LinhaVazia] /\
    length ls = 2%nat.
Proof.
  apply (map_display_is_safe_and_reads_only 0 2
           (sessao_de [territorio "Amazonas" "Verde" 5;
                       territorio "Cerrado" "Cinza" (-3)] 0 0 [])).
  simpl. lia.
Defined.

(** The three screens that open a turn change nothing but the screen. *)
Lemma telas_do_turno id alvo s :
  (TOTAL_TERRITORIOS <= length (mapa (mundo s)))%nat ->
  exists s3,
    mesma_situacao s s3 /\
    forall B (k : J B),
      (exibirMapa 0 TOTAL_TERRITORIOS ~;;
       exibirMissao id alvo ~;;
       exibirMenuPrincipal ~;; k) s = k s3.
Proof.
  intros Hlen.
  destruct (linhas_do_mapa 0 TOTAL_TERRITORIOS 0
              {| mundo := mundo s; stdin := stdin s;
                 tela := ((tela s ++ [MapaTitulo]) ++ [MapaCabecalho])
                         ++ [MapaRegua] |})
    as (s1 & ls & Hrun & Hsit & _); [simpl; lia |].
  assert (Hmapa : forall B (k : J B),
             (exibirMapa 0 TOTAL_TERRITORIOS ~;; k) s
             = k {| mundo := mundo s1; stdin := stdin s1;
                    tela := tela s1 ++ [LinhaVazia] |}).
  { intros B k. unfold exibirMapa.
    unfold bindJ at 1 2 3 4. unfold mostrar at 1 2 3. cbn [mundo stdin tela].
    rewrite (bindJ_RetJ _ _ _ _ _ Hrun). reflexivity. }
  destruct Hsit as [Hw Hin]. cbn [mundo stdin] in Hw, Hin.
  destruct (id =? 0) eqn:E0; [| destruct (id =? 1) eqn:E1];
    (eexists; split;
     [| intros B k; rewrite Hmapa;
        unfold exibirMissao, exibirMenuPrincipal, bindJ, mostrar;
        rewrite E0, ?E1; cbn [mundo stdin tela]; reflexivity];
     split; [exact Hw | exact Hin]).
Qed.

(** ** The keyboard *)

(** X17.  [limparBufferEntrada] discards the rest of the line and no
    more: of an input that goes on, after characters that are not
    newlines, with a newline, it leaves what follows that newline; of an
    input without a newline it leaves nothing. *)
Theorem input_is_discarded_to_the_end_of_line antes depois :
  Forall (fun c => code c <> 10) antes ->
  descartar_linha (antes ++ ascii_of_nat 10 :: depois) = depois /\
  descartar_linha antes = [].
Proof.
  induction 1 as [|c antes Hc _ [IH1 IH2]]; simpl.
  - split; reflexivity.
  - apply Z.eqb_neq in Hc. rewrite Hc. split; assumption.
Qed.

(** What is left of the line [abc] before the line [1]. *)
Lemma input_is_discarded_to_the_end_of_line_witness :
  descartar_linha (list_ascii_of_string "abc"
                   ++ ascii_of_nat 10 :: linhas ["1"%string])
  = linhas ["1"%string] /\
  descartar_linha (list_ascii_of_string "abc") = [].
Proof.
  apply (input_is_discarded_to_the_end_of_line
           (list_ascii_of_string "abc") (linhas ["1"%string])).
  repeat constructor; vm_compute; discriminate.
Defined.

(** ** Attacks that do not happen *)

(** X18.  Indices that are not two different numbers between 1 and
    [total] cancel the attack: [simularAtaque] is not called, the map and
    the dice are as they were, and only the cancellation is printed. *)
Theorem invalid_indices_cancel_the_attack territorios total atk def cj w :
  Z.of_nat total <= CInt.INT_MAX ->
  atk < 1 \/ Z.of_nat total < atk \/ def < 1 \/ Z.of_nat total < def
  \/ atk = def ->
  atacar_escolhidos territorios total atk def cj w =
  Ret tt {| mapa := mapa w; rand_seq := rand_seq w; rand_pos := rand_pos w;
            saida := saida w ++ [AtaqueCancelado] |}.
Proof.
  intros Hmax Hinv. unfold atacar_escolhidos.
  rewrite wrap_in_range
    by (unfold CInt.in_range, CInt.INT_MIN, CInt.INT_MAX in *; lia).
  destruct (Z.ltb_spec atk 1); [reflexivity |].
  destruct (Z.gtb_spec atk (Z.of_nat total)); [reflexivity |].
  destruct (Z.ltb_spec def 1); [reflexivity |].
  destruct (Z.gtb_spec def (Z.of_nat total)); [reflexivity |].
  destruct (Z.eqb_spec atk def); [reflexivity |]. lia.
Qed.

(** Territory 3 is told to attack itself. *)
Lemma invalid_indices_cancel_the_attack_witness :
  atacar_escolhidos 0 5 3 3 corJogador_main (mundo_de mapa_referencia 5 0)
  = Ret tt {| mapa := mapa_referencia;
              rand_seq := rand_seq (mundo_de mapa_referencia 5 0);
              rand_pos := 0;
              saida := [] ++ [AtaqueCancelado] |}.
Proof.
  apply (invalid_indices_cancel_the_attack
           0 5 3 3 corJogador_main (mundo_de mapa_referencia 5 0)).
  - unfold CInt.INT_MAX. simpl. lia.
  - right. right. right. right. reflexivity.
Defined.

(** X19.  An attack phase without attacks: when the number of attacks
    cannot be read, or is zero or negative, [faseDeAtaque] returns with
    the world as it was, having asked nothing more and consumed the line
    it read. *)
Theorem no_attack_without_a_positive_count territorios total cj s r resto :
  ler_int (stdin s) = Some (r, resto) ->
  match r with Some nAtaques => nAtaques <= 0 | None => True end ->
  exists s',
    faseDeAtaque territorios total cj s = RetJ tt s' /\
    mundo s' = mundo s /\
    stdin s' = descartar_linha resto /\
    tela s' = tela s ++ PerguntaAtaques
                     :: match r with
                        | Some _ => []
                        | None => [EntradaInvalidaMenu]
                        end.
Proof.
  intros Hler Hr. unfold faseDeAtaque.
  unfold bindJ at 1 2, mostrar at 1, scanf_d. cbn [mundo stdin tela].
  rewrite Hler. destruct r as [n|].
  - replace (Z.to_nat n) with 0%nat by lia.
    eexists. split; [reflexivity |]. auto.
  - eexists. split; [reflexivity |]. cbn.
    repeat split. now rewrite <- app_assoc.
Qed.

(** The answer to the question is the letter [x]. *)
Lemma no_attack_without_a_positive_count_witness :
  exists s',
    faseDeAtaque 0 5 corJogador_main
      (sessao_de mapa_referencia 5 0 ["x"; "1"]%string) = RetJ tt s' /\
    mundo s' = mundo_de mapa_referencia 5 0 /\
    stdin s' = descartar_linha (linhas ["x"; "1"]%string) /\
    tela s' = [] ++ PerguntaAtaques :: [EntradaInvalidaMenu].
Proof.
  apply (no_attack_without_a_positive_count
           0 5 corJogador_main
           (sessao_de mapa_referencia 5 0 ["x"; "1"]%string)
           None (linhas ["x"; "1"]%string)).
  - reflexivity.
  - exact I.
Defined.

(** ** How the game ends, and how it does not *)

(** A turn at the end of the input: the option is invalid, and nothing
    but the screen changes. *)
Lemma turno_no_fim_da_entrada id alvo desc cj s :
  stdin s = [] ->
  (TOTAL_TERRITORIOS <= length (mapa (mundo s)))%nat ->
  exists s', turno id alvo desc cj 0 s = RetJ (-1, 0) s' /\
             mesma_situacao s s'.
Proof.
  intros Hfim Hlen.
  destruct (telas_do_turno id alvo s Hlen) as (s3 & [Hw Hin] & Hk).
  unfold turno. rewrite Hk.
  destruct s3 as [w3 e3 t3]. cbn [mundo stdin] in Hw, Hin.
  rewrite Hfim in Hin. subst e3.
  eexists. split; [reflexivity |]. split; [exact Hw | cbn; congruence].
Qed.

(** X20.  At the end of the input the game does not end: however many
    turns are allowed, the loop of [main] is still running after them,
    with the map, the dice and the (empty) input as they were. *)
Theorem game_does_not_end_at_end_of_input turnos id alvo desc cj s :
  stdin s = [] ->
  (TOTAL_TERRITORIOS <= length (mapa (mundo s)))%nat ->
  exists s',
    laco turnos id alvo desc cj 0 s = RetJ None s' /\
    mesma_situacao s s'.
Proof.
  revert s. induction turnos as [|turnos IH]; intros s Hfim Hlen.
  - exists s. split; [reflexivity | apply mesma_situacao_refl].
  - destruct (turno_no_fim_da_entrada id alvo desc cj s Hfim Hlen)
      as (s1 & Hrun & Hsit).
    cbn [laco]. rewrite (bindJ_RetJ _ _ _ _ _ Hrun). cbn.
    destruct (IH s1) as (s2 & Hrun2 & Hsit2).
    + destruct Hsit as [_ ->]. exact Hfim.
    + destruct Hsit as [Hw _].
      replace (mapa (mundo s1)) with (mapa (mundo s));
        [exact Hlen | exact (eq_sym (f_equal mapa Hw))].
    + exists s2. split; [exact Hrun2 |].
      eapply mesma_situacao_trans; eassumption.
Qed.

(** Seven turns on the reference map with nothing typed. *)
Lemma game_does_not_end_at_end_of_input_witness :
  exists s',
    laco 7 0 (lit "Verde") (lit "Destruir") corJogador_main 0
      (sessao_de mapa_referencia 0 0 []) = RetJ None s' /\
    mesma_situacao (sessao_de mapa_referencia 0 0 []) s'.
Proof.
  apply (game_does_not_end_at_end_of_input
           7 0 (lit "Verde") (lit "Destruir") corJogador_main
           (sessao_de mapa_referencia 0 0 [])).
  - reflexivity.
  - unfold TOTAL_TERRITORIOS. simpl. lia.
Defined.

(** X21.  Option 0 leaves the game at once: when the number read at the
    menu is 0 the loop of [main] ends in that turn with [venceu = 0]; the
    map and the dice are as they were and the rest of the line is
    consumed. *)
Theorem option_zero_quits_at_once turnos id alvo desc cj s resto :
  (TOTAL_TERRITORIOS <= length (mapa (mundo s)))%nat ->
  ler_int (stdin s) = Some (Some 0, resto) ->
  exists s',
    laco (S turnos) id alvo desc cj 0 s = RetJ (Some 0) s' /\
    limpo (mundo s') = limpo (mundo s) /\
    stdin s' = descartar_linha resto.
Proof.
  intros Hlen Hler.
  destruct (telas_do_turno id alvo s Hlen) as (s3 & [Hw Hin] & Hk).
  cbn [laco]. unfold turno, bindJ at 1. rewrite Hk.
  destruct s3 as [w3 e3 t3]. cbn [mundo stdin] in Hw, Hin. subst e3.
  unfold bindJ at 1, scanf_d. cbn [mundo stdin tela]. rewrite Hler.
  eexists. split; [reflexivity |]. split; [exact Hw | reflexivity].
Qed.

(** The player types 0 at the first menu. *)
Lemma option_zero_quits_at_once_witness :
  exists s',
    laco 1 0 (lit "Verde") (lit "Destruir") corJogador_main 0
      (sessao_de mapa_referencia 0 0 ["0"; "1"]%string) = RetJ (Some 0) s' /\
    limpo (mundo s')
    = limpo (mundo (sessao_de mapa_referencia 0 0 ["0"; "1"]%string)) /\
    stdin s' = descartar_linha (ascii_of_nat 10 :: linhas ["1"%string]).
Proof.
  apply (option_zero_quits_at_once
           0 0 (lit "Verde") (lit "Destruir") corJogador_main
           (sessao_de mapa_referencia 0 0 ["0"; "1"]%string)
           (ascii_of_nat 10 :: linhas ["1"%string])).
  - unfold TOTAL_TERRITORIOS. simpl. lia.
  - reflexivity.
Defined.

Lemma procurar_exercito_so_o_mapa alvo p w1 w2 r n : forall i,
  mapa w1 = mapa w2 ->
  procurar_exercito n p i alvo w1 = Ret r w1 ->
  procurar_exercito n p i alvo w2 = Ret r w2.
Proof.
  induction n as [|n IH]; intros i Hm; simpl.
  - unfold ret. now intros [= <-].
  - unfold bind, ler. rewrite Hm.
    destruct (mapa w2 !! (p + i)%nat) as [t|]; [| discriminate].
    destruct ((strcmp (corExercito t) alvo =? 0) && (tropas t >? 0)).
    + unfold ret. now intros [= <-].
    + now apply IH.
Qed.

Lemma contar_do_jogador_so_o_mapa cj p w1 w2 r n : forall i c,
  mapa w1 = mapa w2 ->
  contar_do_jogador n p i cj c w1 = Ret r w1 ->
  contar_do_jogador n p i cj c w2 = Ret r w2.
Proof.
  induction n as [|n IH]; intros i c Hm; simpl.
  - unfold ret. now intros [= <-].
  - unfold bind, ler. rewrite Hm.
    destruct (mapa w2 !! (p + i)%nat) as [t|]; [| discriminate].
    now apply IH.
Qed.

(** The answer of [verificarVitoria] depends on the map alone. *)
Lemma verificarVitoria_so_o_mapa p total id alvo cj w1 w2 r :
  mapa w1 = mapa w2 ->
  verificarVitoria p total id alvo cj w1 = Ret r w1 ->
  verificarVitoria p total id alvo cj w2 = Ret r w2.
Proof.
  intros Hm. unfold verificarVitoria.
  destruct (id =? 0); [now apply procurar_exercito_so_o_mapa |].
  destruct (id =? 1); [| unfold ret; now intros [= <-]].
  unfold bind.
  destruct (contar_do_jogador total p 0 cj 0 w1) as [c w'|] eqn:E;
    [| discriminate].
  pose proof (contar_do_jogador_pura _ _ _ _ _ _ _ _ E) as ->.
  rewrite (contar_do_jogador_so_o_mapa cj p w1 w2 c total 0 0 Hm E).
  unfold ret. now intros [= <-].
Qed.

(** X22.  Checking a fulfilled mission wins the game: when the number
    read at the menu is 2 and [verificarVitoria] answers 1 on the map,
    the loop of [main] ends in that turn with [venceu = 1], the last
    thing printed being the congratulation with the description of the
    mission; the map and the dice are as they were. *)
Theorem checking_a_fulfilled_mission_wins
  turnos id alvo desc cj s resto :
  (TOTAL_TERRITORIOS <= length (mapa (mundo s)))%nat ->
  ler_int (stdin s) = Some (Some 2, resto) ->
  missao_cumprida id alvo cj s ->
  exists s' antes,
    laco (S turnos) id alvo desc cj 0 s = RetJ (Some 1) s' /\
    limpo (mundo s') = limpo (mundo s) /\
    stdin s' = descartar_linha resto /\
    tela s' = antes ++ [Parabens (c_str desc)].
Proof.
  intros Hlen Hler Hcumprida.
  destruct (telas_do_turno id alvo s Hlen) as (s3 & [Hw Hin] & Hk).
  cbn [laco]. unfold turno, bindJ at 1. rewrite Hk.
  destruct s3 as [w3 e3 t3]. cbn [mundo stdin] in Hw, Hin. subst e3.
  assert (Hvv : verificarVitoria 0 TOTAL_TERRITORIOS id alvo cj (limpo w3)
                = Ret 1 (limpo w3)).
  { apply verificarVitoria_so_o_mapa with (w1 := mundo s);
      [| exact Hcumprida].
    exact (eq_sym (f_equal mapa Hw)). }
  unfold bindJ at 1, scanf_d. cbn [mundo stdin tela]. rewrite Hler.
  unfold bindJ at 1, retJ at 1.
  unfold bindJ at 1, limparBufferEntrada at 1. cbn [mundo stdin tela].
  cbn [Z.eqb Pos.eqb].
  unfold bindJ at 1. unfold bindJ at 1, subir at 1. cbn [mundo stdin tela].
  rewrite Hvv. cbn [Z.eqb negb].
  eexists _, _. split; [reflexivity |].
  split; [exact Hw |]. split; reflexivity.
Qed.

(** The player owns three territories, the mission is to own three, and
    the player types 2. *)
Lemma checking_a_fulfilled_mission_wins_witness :
  exists s' antes,
    laco 1 1 (lit "3Territorios") (lit "Conquistar") corJogador_main 0
      (sessao_de mapa_tres_azuis 0 0 ["2"]%string) = RetJ (Some 1) s' /\
    limpo (mundo s')
    = limpo (mundo (sessao_de mapa_tres_azuis 0 0 ["2"]%string)) /\
    stdin s' = descartar_linha [ascii_of_nat 10] /\
    tela s' = antes ++ [Parabens (c_str (lit "Conquistar"))].
Proof.
  apply (checking_a_fulfilled_mission_wins
           0 1 (lit "3Territorios") (lit "Conquistar") corJogador_main
           (sessao_de mapa_tres_azuis 0 0 ["2"]%string)
           [ascii_of_nat 10]).
  - unfold TOTAL_TERRITORIOS. simpl. lia.
  - reflexivity.
  - reflexivity.
Defined.

(** X23.  How [main] ends: whenever it returns a status, either the
    allocation failed, and the status is [EXIT_FAILURE] with nothing done
    but the error message, or the status is [EXIT_SUCCESS] and the map
    was released. *)
Theorem main_exit_status turnos ha_memoria s status s' :
  main turnos ha_memoria s = RetJ (Some status) s' ->
  ha_memoria = false /\ status = EXIT_FAILURE /\
  s' = {| mundo := mundo s; stdin := stdin s;
          tela := tela s ++ [ErroAlocacao] |}
  \/
  ha_memoria = true /\ status = EXIT_SUCCESS /\ mapa (mundo s') = [].
Proof.
  unfold main. destruct ha_memoria.
  - unfold preparar. cbn [alocarMapa].
    rewrite (inicializarTerritorios_exec _ TOTAL_TERRITORIOS (le_n _)).
    unfold bindJ at 1.
    destruct (subir _ _) as [[[idMissao descricao] alvo] s1|]; [| discriminate].
    unfold bindJ at 1.
    destruct (laco _ _ _ _ _ _ s1) as [[v|] s2|]; try discriminate.
    unfold bindJ, subir, liberarMemoria, retJ. cbn.
    intros [= <- <-]. right. auto.
  - cbn. intros [= <- <-]. left. auto.
Qed.

(** A game in which the player types 0 at once. *)
Lemma main_exit_status_witness :
  true = false /\ EXIT_SUCCESS = EXIT_FAILURE /\
  sessao_final (main 1 true) (Sessao_inicial (fun _ => O) (linhas ["0"%string]))
  = {| mundo := mundo (Sessao_inicial (fun _ => O) (linhas ["0"%string]));
       stdin := stdin (Sessao_inicial (fun _ => O) (linhas ["0"%string]));
       tela := tela (Sessao_inicial (fun _ => O) (linhas ["0"%string]))
               ++ [ErroAlocacao] |}
  \/
  true = true /\ EXIT_SUCCESS = EXIT_SUCCESS /\
  mapa (mundo (sessao_final (main 1 true)
                 (Sessao_inicial (fun _ => O) (linhas ["0"%string])))) = [].
Proof.
  apply (main_exit_status 1 true
           (Sessao_inicial (fun _ => O) (linhas ["0"%string]))
           EXIT_SUCCESS
           (sessao_final (main 1 true)
              (Sessao_inicial (fun _ => O) (linhas ["0"%string])))).
  vm_compute. reflexivity.
Defined.
